(** * toouk_auth: credential verification and token/session lifecycle

    A shallow embedding of the auth controller (register, login, refresh,
    logout, logoutAll, changePassword), of the event consumers
    (user.created, user.deactivated, ...) and of the housekeeping job
    cleanupExpiredSessions, with the properties of the specification
    stated over it.

    Conventions of the embedding:
    - a JavaScript string is the list of its UTF-16 code units;
    - a Date is its number of milliseconds since the epoch, a [Z]; an
      Invalid Date is the absence of one;
    - the Prisma tables are lists of rows in insertion order;
    - a handler is a function from the store (and the outbox of published
      events) to a response and the new store; a rejected promise is an
      explicit [Throw], caught by the handler's try/catch;
    - bcrypt, SHA-256, the JWT signer, [Date.parse] and the set of roles
      of the schema are parameters of the development. *)

From Stdlib Require Import String Ascii ZArith NArith Bool Lia List.
Import ListNotations.

Set Implicit Arguments.

(* ================================================================== *)
(** ** JavaScript strings *)

Module JsString.

Definition code_unit := N.
Definition jsstring := list code_unit.

Definition cu (c : ascii) : code_unit := N_of_ascii c.

(** The code units of an ASCII literal of the source. *)
Definition js (s : string) : jsstring := map cu (list_ascii_of_string s).

(** [a === b] on strings. *)
Fixpoint str_eqb (a b : jsstring) : bool :=
  match a, b with
  | [], [] => true
  | x :: a', y :: b' => N.eqb x y && str_eqb a' b'
  | _, _ => false
  end.

(** [!!s]: the empty string is falsy. *)
Definition truthy (s : jsstring) : bool :=
  match s with [] => false | _ :: _ => true end.

(** A request or message field that may be missing ([undefined]). *)
Definition truthy_field (f : option jsstring) : bool :=
  match f with Some s => truthy s | None => false end.

Definition field_value (f : option jsstring) : jsstring :=
  match f with Some s => s | None => [] end.

End JsString.
Export JsString.

(* ================================================================== *)
(** ** The regular expressions of the source

    Both patterns of [verifyPassword] are anchored sequences of character
    classes with a bounded or unbounded repetition count; that fragment
    is embedded with a backtracking matcher. *)

Module Regex.

Definition CharClass := code_unit -> bool.

Definition lit (c : ascii) : CharClass := fun x => N.eqb x (cu c).

(** [[abc]] *)
Definition one_of (cs : string) : CharClass :=
  fun x => existsb (N.eqb x) (js cs).

(** [\d] *)
Definition digit : CharClass := fun x => N.leb 48 x && N.leb x 57.

(** LineTerminator: LF, CR, LS, PS. *)
Definition is_line_terminator (x : code_unit) : bool :=
  N.eqb x 10 || N.eqb x 13 || N.eqb x 8232 || N.eqb x 8233.

(** [.] without the s flag *)
Definition dot : CharClass := fun x => negb (is_line_terminator x).

(** [[a-f0-9]] under the i flag: canonicalisation maps a-f to A-F and no
    code unit above 127 to an ASCII one. *)
Definition hex_ci : CharClass :=
  fun x => (N.leb 97 x && N.leb x 102) || (N.leb 65 x && N.leb x 70)
           || (N.leb 48 x && N.leb x 57).

(** A class with its quantifier [{lo,hi}]; [hi = None] is unbounded. *)
Record Term := { cls : CharClass; lo : nat; hi : option nat }.

Definition once (c : CharClass) : Term := {| cls := c; lo := 1; hi := Some 1 |}.
Definition rep (c : CharClass) (a b : nat) : Term :=
  {| cls := c; lo := a; hi := Some b |}.
Definition plus (c : CharClass) : Term := {| cls := c; lo := 1; hi := None |}.

(** [^ t1 t2 ... tn $] *)
Definition Anchored := list Term.

Definition prefix_in (c : CharClass) (k : nat) (s : jsstring) : bool :=
  Nat.leb k (length s) && forallb c (firstn k s).

Fixpoint test (r : Anchored) (s : jsstring) : bool :=
  match r with
  | [] => match s with [] => true | _ :: _ => false end
  | t :: r' =>
      let top := match hi t with Some h => h | None => length s end in
      existsb (fun k => prefix_in (cls t) k s && test r' (skipn k s))
              (seq (lo t) (S top - lo t))
  end.

End Regex.
Export Regex.

(* ================================================================== *)
(** ** Promises, the store and the outbox *)

Module Store.

Definition Id := jsstring.

(** Row of the User table, with the columns the controller and the
    consumers read or write. *)
Record User := {
  id : Id;
  email : jsstring;
  username : jsstring;
  password : jsstring;
  role : jsstring;
  isActive : bool;
  createdAt : Z
}.

(** Row of the Session table and of the RefreshToken table. *)
Record TokenRow := {
  userId : Id;
  token : jsstring;
  expiresAt : Z
}.

Record Db := {
  users : list User;
  sessions : list TokenRow;
  refreshTokens : list TokenRow
}.

(** The events handed to [publishEvent], by topic. *)
Inductive Event : Type :=
| SessionsCleanedUp (timestamp : Z) (expiredSessions expiredTokens : nat)
| UserRegistered (timestamp : Z) (uid mail uname urole : jsstring)
| UserLoggedIn (timestamp : Z) (uid mail sessionToken : jsstring)
| TokenRefreshed (timestamp : Z) (uid mail : jsstring)
| UserLoggedOut (timestamp : Z) (uid : option Id)
                (sessionToken : option jsstring) (refreshToken : bool)
| UserLoggedOutAll (timestamp : Z) (uid : Id)
| UserPasswordChanged (timestamp : Z) (uid mail : jsstring).

Record World := {
  db : Db;
  outbox : list Event
}.

(** The value of an awaited promise: fulfilled, or rejected. *)
Inductive Outcome (A : Type) : Type :=
| Val (a : A)
| Throw.
Arguments Throw {A}.

(** An asynchronous computation over the store. A rejection keeps the
    writes made before it: nothing here runs in a transaction. *)
Definition Async (A : Type) : Type := World -> Outcome A * World.

Definition ret {A} (a : A) : Async A := fun w => (Val a, w).

Definition throw {A} : Async A := fun w => (Throw, w).

Definition bind {A B} (m : Async A) (k : A -> Async B) : Async B :=
  fun w => match m w with
           | (Val a, w') => k a w'
           | (Throw, w') => (Throw, w')
           end.

Definition await {A} (o : Outcome A) : Async A := fun w => (o, w).

(** [Promise.all([a, b])]: both run; the result rejects if one does. *)
Definition promise_all {A B} (a : Async A) (b : Async B) : Async (A * B) :=
  fun w => let (ra, w1) := a w in
           let (rb, w2) := b w1 in
           match ra, rb with
           | Val x, Val y => (Val (x, y), w2)
           | _, _ => (Throw, w2)
           end.

(** [try { ... } catch (error) { return fallback }] *)
Definition try_catch {A} (m : Async A) (fallback : A) : World -> A * World :=
  fun w => match m w with
           | (Val a, w') => (a, w')
           | (Throw, w') => (fallback, w')
           end.

Definition set_users (f : list User -> list User) (w : World) : World :=
  {| db := {| users := f (users (db w));
              sessions := sessions (db w);
              refreshTokens := refreshTokens (db w) |};
     outbox := outbox w |}.

Definition set_sessions (f : list TokenRow -> list TokenRow) (w : World) : World :=
  {| db := {| users := users (db w);
              sessions := f (sessions (db w));
              refreshTokens := refreshTokens (db w) |};
     outbox := outbox w |}.

Definition set_refreshTokens (f : list TokenRow -> list TokenRow) (w : World) : World :=
  {| db := {| users := users (db w);
              sessions := sessions (db w);
              refreshTokens := f (refreshTokens (db w)) |};
     outbox := outbox w |}.

(** [publishEvent(topic, payload)] *)
Definition publishEvent (e : Event) : Async unit :=
  fun w => (Val tt, {| db := db w; outbox := outbox w ++ [e] |}).

(** *** prisma.user *)

Definition user_findFirst (where_ : User -> bool) : Async (option User) :=
  fun w => (Val (find where_ (users (db w))), w).

Definition user_findUnique (uid : Id) : Async (option User) :=
  user_findFirst (fun u => str_eqb (id u) uid).

(** Modelled from the spec: the schema of the User table is not part
    of the sources; the data model makes [email] and [username] unique
    next to the key [id], and [role] an enumeration. An insert that
    breaks one of them is rejected. *)
Definition user_insertable (role_ok : jsstring -> bool) (u : User) (l : list User) : bool :=
  role_ok (role u)
  && negb (existsb (fun v => str_eqb (id v) (id u)
                             || str_eqb (email v) (email u)
                             || str_eqb (username v) (username u)) l).

Definition user_create (role_ok : jsstring -> bool) (u : User) : Async User :=
  fun w => if user_insertable role_ok u (users (db w))
           then (Val u, set_users (fun l => l ++ [u]) w)
           else (Throw, w).

(** [prisma.user.update({ where: { id }, data })] rejects when no row
    has the key. *)
Definition user_update (uid : Id) (data : User -> User) : Async User :=
  fun w => match find (fun u => str_eqb (id u) uid) (users (db w)) with
           | Some u =>
               (Val (data u),
                set_users (map (fun v => if str_eqb (id v) uid then data v else v)) w)
           | None => (Throw, w)
           end.

(** *** prisma.session and prisma.refreshToken *)

(** Modelled from the spec: the schema of the two token tables is not
    part of the sources; the data model makes the token value unique. *)
Definition token_insertable (r : TokenRow) (l : list TokenRow) : bool :=
  negb (existsb (fun x => str_eqb (token x) (token r)) l).

Definition session_create (r : TokenRow) : Async TokenRow :=
  fun w => if token_insertable r (sessions (db w))
           then (Val r, set_sessions (fun l => l ++ [r]) w)
           else (Throw, w).

Definition refreshToken_create (r : TokenRow) : Async TokenRow :=
  fun w => if token_insertable r (refreshTokens (db w))
           then (Val r, set_refreshTokens (fun l => l ++ [r]) w)
           else (Throw, w).

Definition keep (where_ : TokenRow -> bool) (l : list TokenRow) : list TokenRow :=
  filter (fun r => negb (where_ r)) l.

Definition count (where_ : TokenRow -> bool) (l : list TokenRow) : nat :=
  List.length (filter where_ l).

(** [deleteMany({ where })] resolves to the number of rows deleted. *)
Definition session_deleteMany (where_ : TokenRow -> bool) : Async nat :=
  fun w => (Val (count where_ (sessions (db w))), set_sessions (keep where_) w).

Definition refreshToken_deleteMany (where_ : TokenRow -> bool) : Async nat :=
  fun w => (Val (count where_ (refreshTokens (db w))),
            set_refreshTokens (keep where_) w).

(** [findUnique({ where: { token }, include: { user: true } })] *)
Definition refreshToken_findUnique (tok : jsstring)
  : Async (option (TokenRow * option User)) :=
  fun w => match find (fun r => str_eqb (token r) tok) (refreshTokens (db w)) with
           | Some r =>
               (Val (Some (r, find (fun u => str_eqb (id u) (userId r))
                                   (users (db w)))), w)
           | None => (Val None, w)
           end.

(** Where-clauses *)
Definition by_userId (uid : Id) : TokenRow -> bool :=
  fun r => str_eqb (userId r) uid.
Definition by_token (tok : jsstring) : TokenRow -> bool :=
  fun r => str_eqb (token r) tok.
Definition expired (now : Z) : TokenRow -> bool :=
  fun r => Z.ltb (expiresAt r) now.

End Store.
Export Store.

Declare Scope async_scope.
Delimit Scope async_scope with async.
Notation "x <- m ;; k" := (bind m (fun x => k))
  (at level 61, m at next level, right associativity) : async_scope.
Notation "m ;;; k" := (bind m (fun _ => k))
  (at level 61, right associativity) : async_scope.
Open Scope async_scope.

(* ================================================================== *)
(** ** The libraries the service calls *)

Record JwtPayload := {
  jwt_userId : jsstring;
  jwt_email : jsstring;
  jwt_role : jsstring
}.

Class Library := {
  (** [bcrypt.compare(plain, hash)]; it rejects on a hash it cannot parse *)
  bcrypt_compare : jsstring -> jsstring -> Outcome bool;
  (** [bcrypt.hash(plain, rounds)], with the salt it draws made explicit *)
  bcrypt_hash : jsstring -> nat -> jsstring -> jsstring;
  (** [crypto.createHash("sha256").update(s).digest("hex")] *)
  sha256_hex : jsstring -> jsstring;
  (** [jwt.sign(payload, JWT_SECRET, { expiresIn: JWT_EXPIRES_IN })] at a given time *)
  jwt_sign : JwtPayload -> Z -> jsstring;
  (** the values of the Role enumeration of the schema *)
  role_ok : jsstring -> bool;
  (** [Date.parse(s)]: the time value of a date string, [None] for NaN *)
  date_parse : jsstring -> option Z
}.

(* ================================================================== *)
(** ** Credential verifier (authController: verifyPassword) *)

Module Verifier.

(** [/^\$2[aby]\$\d{1,2}\$.{53}$/] *)
Definition bcryptPattern : Anchored :=
  [ once (lit "$"); once (lit "2"); once (one_of "aby"); once (lit "$");
    rep digit 1 2; once (lit "$"); rep dot 53 53 ].

(** [/^[a-f0-9]+$/i] *)
Definition hexPattern : Anchored := [ plus hex_ci ].

Section WithLibrary.
Context {L : Library}.

Definition hashPasswordSHA256 (password : jsstring) : jsstring :=
  sha256_hex password.

Definition verifyPassword (plainPassword storedHash : jsstring) : Outcome bool :=
  if test bcryptPattern storedHash then
    bcrypt_compare plainPassword storedHash
  else if Nat.eqb (List.length storedHash) 64 && test hexPattern storedHash then
    let inputHash := hashPasswordSHA256 plainPassword in
    Val (str_eqb inputHash storedHash)
  else
    Val (str_eqb plainPassword storedHash).

End WithLibrary.

End Verifier.
Export Verifier.

(* ================================================================== *)
(** ** Requests, responses and what the runtime supplies *)

Module Http.

Record UserView := {
  view_id : Id;
  view_email : jsstring;
  view_username : jsstring;
  view_role : jsstring;
  view_isActive : bool
}.

Inductive Body : Type :=
| Error (error : string)
| Message (message : string)
| Registered (user : UserView) (created : Z) (accessToken refreshToken : jsstring)
| LoggedIn (user : UserView) (accessToken refreshToken sessionToken : jsstring)
| Refreshed (accessToken : jsstring).

Record Response := { status : Z; body : Body }.

Definition json (code : Z) (b : Body) : Response := {| status := code; body := b |}.

(** The clock reading of the request, the key the store generates for a
    new User row, the salt bcrypt draws and the two values of
    [crypto.randomBytes(32).toString("hex")]. *)
Record Env := {
  now : Z;
  fresh_id : Id;
  salt : jsstring;
  random_refresh : jsstring;
  random_session : jsstring
}.

Record RegisterBody := {
  reg_email : option jsstring;
  reg_username : option jsstring;
  reg_password : option jsstring;
  reg_role : option jsstring
}.

Record LoginBody := {
  login_emailOrUsername : option jsstring;
  login_password : option jsstring
}.

Record LogoutBody := {
  logout_refreshToken : option jsstring;
  logout_sessionToken : option jsstring
}.

Record ChangePasswordBody := {
  currentPassword : option jsstring;
  newPassword : option jsstring
}.

End Http.
Export Http.

(* ================================================================== *)
(** ** The controller (authController) *)

Module Controller.

Definition REFRESH_TOKEN_EXPIRES_IN : Z := 7 * 24 * 60 * 60 * 1000.

Definition view (u : User) : UserView :=
  {| view_id := id u; view_email := email u; view_username := username u;
     view_role := role u; view_isActive := isActive u |}.

Definition payload_of (u : User) : JwtPayload :=
  {| jwt_userId := id u; jwt_email := email u; jwt_role := role u |}.

Section WithLibrary.
Context {L : Library}.

(** POST /auth/register *)
Definition register (env : Env) (req : RegisterBody) : World -> Response * World :=
  try_catch
    (if negb (truthy_field (reg_email req)) || negb (truthy_field (reg_username req))
        || negb (truthy_field (reg_password req))
     then ret (json 400 (Error "Email, username, and password are required"))
     else
       let email_ := field_value (reg_email req) in
       let username_ := field_value (reg_username req) in
       let password_ := field_value (reg_password req) in
       let role_ := match reg_role req with Some r => r | None => js "USER" end in
       existingUser <- user_findFirst
                         (fun u => str_eqb (email u) email_
                                   || str_eqb (username u) username_) ;;
       match existingUser with
       | Some _ =>
           ret (json 400 (Error "User with this email or username already exists"))
       | None =>
           let hashedPassword := bcrypt_hash password_ 12 (salt env) in
           user <- user_create role_ok
                     {| id := fresh_id env; email := email_; username := username_;
                        password := hashedPassword; role := role_;
                        isActive := true; createdAt := now env |} ;;
           let accessToken := jwt_sign (payload_of user) (now env) in
           let refreshToken := random_refresh env in
           let refreshTokenExpiry := (now env + REFRESH_TOKEN_EXPIRES_IN)%Z in
           refreshToken_create {| userId := id user; token := refreshToken;
                                  expiresAt := refreshTokenExpiry |} ;;;
           publishEvent (UserRegistered (now env) (id user) (email user)
                                        (username user) (role user)) ;;;
           ret (json 201 (Registered (view user) (createdAt user)
                                     accessToken refreshToken))
       end)
    (json 500 (Error "Failed to register user")).

(** POST /auth/login *)
Definition login (env : Env) (req : LoginBody) : World -> Response * World :=
  try_catch
    (if negb (truthy_field (login_emailOrUsername req))
        || negb (truthy_field (login_password req))
     then ret (json 400 (Error "Email/username and password are required"))
     else
       let emailOrUsername := field_value (login_emailOrUsername req) in
       let password_ := field_value (login_password req) in
       user <- user_findFirst
                 (fun u => (str_eqb (email u) emailOrUsername
                            || str_eqb (username u) emailOrUsername)
                           && isActive u) ;;
       match user with
       | None => ret (json 401 (Error "Invalid credentials"))
       | Some user =>
           isPasswordValid <- await (verifyPassword password_ (password user)) ;;
           if negb isPasswordValid
           then ret (json 401 (Error "Invalid credentials"))
           else
             let accessToken := jwt_sign (payload_of user) (now env) in
             let refreshToken := random_refresh env in
             let refreshTokenExpiry := (now env + REFRESH_TOKEN_EXPIRES_IN)%Z in
             refreshToken_create {| userId := id user; token := refreshToken;
                                    expiresAt := refreshTokenExpiry |} ;;;
             let sessionToken := random_session env in
             let sessionExpiry := (now env + 24 * 60 * 60 * 1000)%Z in
             session_create {| userId := id user; token := sessionToken;
                               expiresAt := sessionExpiry |} ;;;
             publishEvent (UserLoggedIn (now env) (id user) (email user)
                                        sessionToken) ;;;
             ret (json 200 (LoggedIn (view user) accessToken refreshToken
                                     sessionToken))
       end)
    (json 500 (Error "Failed to login")).

(** POST /auth/refresh *)
Definition refreshToken (env : Env) (req_refreshToken : option jsstring)
  : World -> Response * World :=
  try_catch
    (if negb (truthy_field req_refreshToken)
     then ret (json 400 (Error "Refresh token is required"))
     else
       tokenRecord <- refreshToken_findUnique (field_value req_refreshToken) ;;
       match tokenRecord with
       | None => ret (json 401 (Error "Invalid or expired refresh token"))
       | Some (row, owner) =>
           if Z.ltb (expiresAt row) (now env)
           then ret (json 401 (Error "Invalid or expired refresh token"))
           else
             match owner with
             | None => throw
             | Some user =>
                 if negb (isActive user)
                 then ret (json 401 (Error "User account is inactive"))
                 else
                   let accessToken := jwt_sign (payload_of user) (now env) in
                   publishEvent (TokenRefreshed (now env) (id user) (email user)) ;;;
                   ret (json 200 (Refreshed accessToken))
             end
       end)
    (json 500 (Error "Failed to refresh token")).

(** POST /auth/logout; [req_user] is the userId of the verified bearer token. *)
Definition logout (env : Env) (req_user : option Id) (req : LogoutBody)
  : World -> Response * World :=
  try_catch
    ((if truthy_field (logout_refreshToken req)
      then refreshToken_deleteMany (by_token (field_value (logout_refreshToken req))) ;;;
           ret tt
      else ret tt) ;;;
     (if truthy_field (logout_sessionToken req)
      then session_deleteMany (by_token (field_value (logout_sessionToken req))) ;;;
           ret tt
      else ret tt) ;;;
     publishEvent (UserLoggedOut (now env) req_user (logout_sessionToken req)
                                 (truthy_field (logout_refreshToken req))) ;;;
     ret (json 200 (Message "Logout successful")))
    (json 500 (Error "Failed to logout")).

(** POST /auth/logout-all *)
Definition logoutAll (env : Env) (req_user : option Id) : World -> Response * World :=
  try_catch
    (if negb (truthy_field req_user)
     then ret (json 401 (Error "User not authenticated"))
     else
       let userId_ := field_value req_user in
       promise_all (session_deleteMany (by_userId userId_))
                   (refreshToken_deleteMany (by_userId userId_)) ;;;
       publishEvent (UserLoggedOutAll (now env) userId_) ;;;
       ret (json 200 (Message "Logged out from all devices")))
    (json 500 (Error "Failed to logout from all devices")).

(** PUT /auth/change-password *)
Definition changePassword (env : Env) (req_user : option Id) (req : ChangePasswordBody)
  : World -> Response * World :=
  try_catch
    (if negb (truthy_field req_user)
     then ret (json 401 (Error "User not authenticated"))
     else if negb (truthy_field (currentPassword req))
             || negb (truthy_field (newPassword req))
     then ret (json 400 (Error "Current password and new password are required"))
     else if Nat.ltb (List.length (field_value (newPassword req))) 6
     then ret (json 400 (Error "New password must be at least 6 characters long"))
     else
       let userId_ := field_value req_user in
       user <- user_findUnique userId_ ;;
       match user with
       | None => ret (json 404 (Error "User not found"))
       | Some user =>
           isCurrentPasswordValid <-
             await (bcrypt_compare (field_value (currentPassword req)) (password user)) ;;
           if negb isCurrentPasswordValid
           then ret (json 400 (Error "Current password is incorrect"))
           else
             let hashedNewPassword :=
               bcrypt_hash (field_value (newPassword req)) 12 (salt env) in
             user_update userId_
               (fun u => {| id := id u; email := email u; username := username u;
                            password := hashedNewPassword; role := role u;
                            isActive := isActive u; createdAt := createdAt u |}) ;;;
             promise_all (session_deleteMany (by_userId userId_))
                         (refreshToken_deleteMany (by_userId userId_)) ;;;
             publishEvent (UserPasswordChanged (now env) userId_ (email user)) ;;;
             ret (json 200 (Message "Password changed successfully. Please login again."))
       end)
    (json 500 (Error "Failed to change password")).

End WithLibrary.

End Controller.
Export Controller.

(* ================================================================== *)
(** ** The event consumers (startEventConsumers) *)

Module Consumer.

(** The [createdAt] field of a payload: a number of milliseconds or a
    date string. *)
Inductive DateInput :=
| Millis (ms : Z)
| DateString (s : jsstring).

(** Payload of [user.created]. *)
Record UserCreated := {
  msg_email : jsstring;
  msg_password : option jsstring;
  msg_hashedPassword : option jsstring;
  msg_role : jsstring;
  msg_isActive : bool;
  msg_createdAt : option DateInput
}.

(** The largest time value of a Date, in milliseconds either side of
    the epoch (TimeClip). *)
Definition MAX_TIME : Z := 8640000000000000.

Definition time_clip (ms : Z) : option Z :=
  if (Z.abs ms <=? MAX_TIME)%Z then Some ms else None.

(** JS truthiness of the field: a number other than 0, a string other
    than the empty one. *)
Definition truthy_date (d : DateInput) : bool :=
  match d with
  | Millis ms => negb (Z.eqb ms 0)
  | DateString s => truthy s
  end.

Definition set_isActive (b : bool) (u : User) : User :=
  {| id := id u; email := email u; username := username u; password := password u;
     role := role u; isActive := b; createdAt := createdAt u |}.

Section WithLibrary.
Context {L : Library}.

(** [new Date(value)]: its time value, [None] for an Invalid Date. *)
Definition new_Date (d : DateInput) : option Z :=
  match d with
  | Millis ms => time_clip ms
  | DateString s => match date_parse s with
                    | Some ms => time_clip ms
                    | None => None
                    end
  end.

(** [createdAt ? new Date(createdAt) : new Date()] *)
Definition created_date (env : Env) (message : UserCreated) : option Z :=
  match msg_createdAt message with
  | Some d => if truthy_date d then new_Date d else Some (now env)
  | None => Some (now env)
  end.

(** The callback consuming [user.created]: its catch logs and returns.
    [prisma.user.create] rejects an Invalid Date before it writes. *)
Definition onUserCreated (env : Env) (message : UserCreated) : World -> World :=
  fun w => snd (try_catch
    (finalPassword <-
       (if truthy_field (msg_hashedPassword message)
        then ret (field_value (msg_hashedPassword message))
        else if truthy_field (msg_password message)
        then ret (field_value (msg_password message))
        else throw) ;;
     match created_date env message with
     | Some t =>
         user_create role_ok
           {| id := fresh_id env;
              email := msg_email message;
              username := msg_email message;
              password := finalPassword;
              role := msg_role message;
              isActive := msg_isActive message;
              createdAt := t |}
     | None => throw
     end ;;;
     ret tt) tt w).

(** The callback consuming [user.deactivated]. *)
Definition onUserDeactivated (userId_ : Id) : World -> World :=
  fun w => snd (try_catch
    (promise_all (user_update userId_ (set_isActive false))
                 (promise_all (session_deleteMany (by_userId userId_))
                              (refreshToken_deleteMany (by_userId userId_))) ;;;
     ret tt) tt w).

(** The callback consuming [user.reactivated]. *)
Definition onUserReactivated (userId_ : Id) : World -> World :=
  fun w => snd (try_catch (user_update userId_ (set_isActive true) ;;; ret tt) tt w).

End WithLibrary.

End Consumer.
Export Consumer.

(* ================================================================== *)
(** ** The housekeeping jobs (authJobs) *)

Module Jobs.

(** [cleanupExpiredSessions]; a failure is logged and rethrown. *)
Definition cleanupExpiredSessions (env : Env) : Async unit :=
  let now_ := now env in
  expiredSessions <- session_deleteMany (expired now_) ;;
  expiredTokens <- refreshToken_deleteMany (expired now_) ;;
  publishEvent (SessionsCleanedUp (now env) expiredSessions expiredTokens) ;;;
  ret tt.

End Jobs.
Export Jobs.

(* ================================================================== *)
(** ** The vocabulary of the specification *)

Module Spec.

(** The three encodings of a stored credential (section 4.1). *)
Inductive Encoding : Type := Adaptive | LegacyDigest | PlainFallback.

Definition is_digit (c : code_unit) : Prop := (48 <= c <= 57)%N.

Definition is_hex (c : code_unit) : Prop :=
  (48 <= c <= 57)%N \/ (65 <= c <= 70)%N \/ (97 <= c <= 102)%N.

Definition not_line_terminator (c : code_unit) : Prop :=
  c <> 10%N /\ c <> 13%N /\ c <> 8232%N /\ c <> 8233%N.

(** Fixed prefix class, cost factor, 53-character remainder. *)
Definition AdaptiveShape (s : jsstring) : Prop :=
  exists v cost rest,
    s = js "$2" ++ v :: js "$" ++ cost ++ js "$" ++ rest
    /\ In v (js "aby")
    /\ (List.length cost = 1 \/ List.length cost = 2)
    /\ Forall is_digit cost
    /\ List.length rest = 53
    /\ Forall not_line_terminator rest.

(** Exactly 64 hexadecimal characters. *)
Definition HexDigest64 (s : jsstring) : Prop :=
  List.length s = 64 /\ Forall is_hex s.

(** Ordered classification, first match wins. *)
Inductive encoding_of (s : jsstring) : Encoding -> Prop :=
| enc_adaptive : AdaptiveShape s -> encoding_of s Adaptive
| enc_legacy : ~ AdaptiveShape s -> HexDigest64 s -> encoding_of s LegacyDigest
| enc_plain : ~ AdaptiveShape s -> ~ HexDigest64 s -> encoding_of s PlainFallback.

Section WithLibrary.
Context {L : Library}.

(** The password is the right one for a credential of that encoding. *)
Definition correct_for (e : Encoding) (plain stored : jsstring) : Prop :=
  match e with
  | Adaptive => bcrypt_compare plain stored = Val true
  | LegacyDigest => sha256_hex plain = stored
  | PlainFallback => plain = stored
  end.

(** The contract of bcrypt the service relies on: a hash has the
    adaptive shape and compares equal to the password it was made from,
    and nothing but a 60-character hash ever compares equal. *)
Definition bcrypt_contract : Prop :=
  (forall plain rounds salt_,
      test bcryptPattern (bcrypt_hash plain rounds salt_) = true)
  /\ (forall plain rounds salt_,
      bcrypt_compare plain (bcrypt_hash plain rounds salt_) = Val true)
  /\ (forall plain h, List.length h <> 60 -> bcrypt_compare plain h = Val false).

(** The credential has the adaptive shape and the verifier accepts the
    password through bcrypt, its first branch. *)
Definition stored_adaptively (plain stored : jsstring) : Prop :=
  encoding_of stored Adaptive
  /\ verifyPassword plain stored = bcrypt_compare plain stored
  /\ verifyPassword plain stored = Val true.

(** No active account answers to the identifier. *)
Definition no_account (x : jsstring) (w : World) : Prop :=
  forall u, In u (users (db w)) -> isActive u = true ->
            email u <> x /\ username u <> x.

(** An active account answers to the identifier, and the password is
    rejected by the verifier for every account that does. *)
Definition wrong_password (x pw : jsstring) (w : World) : Prop :=
  (exists u, In u (users (db w)) /\ isActive u = true
             /\ (email u = x \/ username u = x))
  /\ (forall u, In u (users (db w)) -> isActive u = true ->
                email u = x \/ username u = x ->
                verifyPassword pw (password u) = Val false).

(** An active account answers to the identifier, and every account
    that does holds a credential of the adaptive shape on which
    [bcrypt.compare] rejects for this password. *)
Definition unverifiable_password (x pw : jsstring) (w : World) : Prop :=
  (exists u, In u (users (db w)) /\ isActive u = true
             /\ (email u = x \/ username u = x))
  /\ (forall u, In u (users (db w)) -> isActive u = true ->
                email u = x \/ username u = x ->
                AdaptiveShape (password u)
                /\ bcrypt_compare pw (password u) = Throw).

End WithLibrary.

(** The error taxonomy of section 7, read off the error message of a
    response. Both refresh failures carry HTTP status 401; they differ in
    the message. *)
Inductive ErrorKind : Type :=
| VALIDATION | AUTH_INVALID | AUTH_REQUIRED | AUTH_FORBIDDEN | CONFLICT
| NOT_FOUND | DEPENDENCY_FAILURE.

Definition kind_of_message (m : string) : ErrorKind :=
  if String.eqb m "Invalid credentials" then AUTH_INVALID
  else if String.eqb m "Invalid or expired refresh token" then AUTH_INVALID
  else if String.eqb m "Current password is incorrect" then AUTH_INVALID
  else if String.eqb m "User account is inactive" then AUTH_FORBIDDEN
  else if String.eqb m "User not authenticated" then AUTH_REQUIRED
  else if String.eqb m "User with this email or username already exists" then CONFLICT
  else if String.eqb m "User not found" then NOT_FOUND
  else if String.prefix "Failed to" m then DEPENDENCY_FAILURE
  else VALIDATION.

Definition error_kind (r : Response) : option ErrorKind :=
  match body r with
  | Error m => Some (kind_of_message m)
  | _ => None
  end.

(** Whether a response hands out an access token. *)
Definition mints_access_token (r : Response) : bool :=
  match body r with
  | Registered _ _ _ _ | LoggedIn _ _ _ _ | Refreshed _ => true
  | _ => false
  end.

(** The rows of a table that belong to a user. *)
Definition rows_of (uid : Id) (l : list TokenRow) : list TokenRow :=
  filter (by_userId uid) l.

(** Token values are unique across the rows of a table, and so are the
    keys, the emails and the usernames of the users. *)
Definition unique_tokens (l : list TokenRow) : Prop := NoDup (map token l).

Definition unique_ids (l : list User) : Prop := NoDup (map id l).

Definition unique_emails (l : list User) : Prop := NoDup (map email l).

Definition unique_usernames (l : list User) : Prop := NoDup (map username l).

(** Section 4.4 in its own words: "upsert a local User from the event
    payload", keyed by the natural key (the email, which is also the
    username of a replicated user). *)
Definition upsertUserCreated {L : Library} (env : Env) (message : UserCreated)
  : World -> World :=
  fun w =>
    let credential :=
      if truthy_field (msg_hashedPassword message) then msg_hashedPassword message
      else if truthy_field (msg_password message) then msg_password message
      else None in
    match credential with
    | None => w
    | Some finalPassword =>
        let same u := str_eqb (email u) (msg_email message) in
        if existsb same (users (db w))
        then set_users
               (map (fun u => if same u
                              then {| id := id u; email := email u;
                                      username := username u;
                                      password := finalPassword;
                                      role := msg_role message;
                                      isActive := msg_isActive message;
                                      createdAt := createdAt u |}
                              else u)) w
        else onUserCreated env message w
    end.

End Spec.
Export Spec.

(* ================================================================== *)
(** ** A reference instance of the libraries

    Small stand-ins with the interface of bcrypt, SHA-256 and the JWT
    signer, so that the handlers can be run on concrete inputs. They
    have the shape of the real outputs and none of their strength. *)

Module Reference.

Definition fit (n : nat) (s : jsstring) : jsstring :=
  firstn n (map (fun x => (65 + x mod 26)%N) s ++ repeat 46%N n).

Definition two_digits (n : nat) : jsstring :=
  [ (48 + N.of_nat ((n / 10) mod 10))%N; (48 + N.of_nat (n mod 10))%N ].

Definition ref_hash (plain : jsstring) (rounds : nat) (salt_ : jsstring) : jsstring :=
  js "$2b$" ++ two_digits rounds ++ js "$" ++ fit 22 salt_ ++ fit 31 plain.

Definition ref_compare (plain h : jsstring) : Outcome bool :=
  if Nat.eqb (List.length h) 60
  then Val (str_eqb (skipn 29 h) (fit 31 plain))
  else Val false.

Definition hex_digit (x : code_unit) : code_unit :=
  nth (N.to_nat (x mod 16)) (js "0123456789abcdef") 48%N.

Definition ref_sha256 (s : jsstring) : jsstring :=
  firstn 64 (map hex_digit s ++ repeat 48%N 64).

Definition ref_jwt (p : JwtPayload) (t : Z) : jsstring :=
  js "jwt." ++ jwt_userId p.

Definition ref_role_ok (r : jsstring) : bool :=
  str_eqb r (js "USER") || str_eqb r (js "ADMIN").

Definition ref_date_parse (s : jsstring) : option Z :=
  if str_eqb s (js "1970-01-01T00:00:01.300Z") then Some 1300%Z else None.

Definition reference : Library :=
  {| bcrypt_compare := ref_compare;
     bcrypt_hash := ref_hash;
     sha256_hex := ref_sha256;
     jwt_sign := ref_jwt;
     role_ok := ref_role_ok;
     date_parse := ref_date_parse |}.

(** A stand-in for [bcrypt.compare] that, like bcryptjs, answers false
    on anything but a 60-character hash and rejects ("Illegal number of
    rounds") when the cost of such a hash is outside 4..31. *)
Definition cost_of (h : jsstring) : N :=
  ((nth 4 h 48 - 48) * 10 + (nth 5 h 48 - 48))%N.

Definition strict_compare (plain h : jsstring) : Outcome bool :=
  if negb (Nat.eqb (List.length h) 60) then Val false
  else if ((4 <=? cost_of h) && (cost_of h <=? 31))%N then ref_compare plain h
  else Throw.

Definition strict_reference : Library :=
  {| bcrypt_compare := strict_compare;
     bcrypt_hash := ref_hash;
     sha256_hex := ref_sha256;
     jwt_sign := ref_jwt;
     role_ok := ref_role_ok;
     date_parse := ref_date_parse |}.

(** A credential of the adaptive shape with cost 99. *)
Definition unparsable_hash : jsstring := js "$2b$99$" ++ repeat 46%N 53.

Definition empty_world : World :=
  {| db := {| users := []; sessions := []; refreshTokens := [] |}; outbox := [] |}.

Definition env_at (t : Z) (key salt_ r s : string) : Env :=
  {| now := t; fresh_id := js key; salt := js salt_;
     random_refresh := js r; random_session := js s |}.

(** A small replica: an active user with a bcrypt credential, an
    inactive one with a plaintext credential, an active one with a
    legacy digest; their sessions and refresh tokens. *)

Definition alice : User :=
  {| id := js "u1"; email := js "alice@x.com"; username := js "alice";
     password := ref_hash (js "secret123") 12 (js "salt0");
     role := js "USER"; isActive := true; createdAt := 1000 |}.

Definition bob : User :=
  {| id := js "u2"; email := js "bob@x.com"; username := js "bob";
     password := js "hunter2!";
     role := js "USER"; isActive := false; createdAt := 1100 |}.

Definition carol : User :=
  {| id := js "u3"; email := js "carol@x.com"; username := js "carol@x.com";
     password := ref_sha256 (js "letmein");
     role := js "ADMIN"; isActive := true; createdAt := 1200 |}.

Definition alice_session : TokenRow :=
  {| userId := js "u1"; token := js "s-alice"; expiresAt := 90000 |}.

Definition carol_session : TokenRow :=
  {| userId := js "u3"; token := js "s-carol"; expiresAt := 90000 |}.

Definition alice_refresh : TokenRow :=
  {| userId := js "u1"; token := js "r-alice"; expiresAt := 600000 |}.

Definition bob_refresh : TokenRow :=
  {| userId := js "u2"; token := js "r-bob"; expiresAt := 600000 |}.

Definition carol_refresh : TokenRow :=
  {| userId := js "u3"; token := js "r-carol"; expiresAt := 4000 |}.

Definition replica : World :=
  {| db := {| users := [alice; bob; carol];
              sessions := [alice_session; carol_session];
              refreshTokens := [alice_refresh; bob_refresh; carol_refresh] |};
     outbox := [] |}.

(** The event that replicates erin with the unparsable credential. *)
Definition erin_created : UserCreated :=
  {| msg_email := js "erin@x.com";
     msg_password := None;
     msg_hashedPassword := Some unparsable_hash;
     msg_role := js "USER";
     msg_isActive := true;
     msg_createdAt := None |}.

End Reference.
Export Reference.

(* ================================================================== *)
(** ** The bearer-token middleware (authMiddleware) *)

Module Middleware.

(** [s.split(sep)] for a separator of one code unit. *)
Fixpoint split_on (sep : code_unit) (s : jsstring) : list jsstring :=
  match s with
  | [] => [[]]
  | c :: s' =>
      if N.eqb c sep then [] :: split_on sep s'
      else match split_on sep s' with
           | h :: t => (c :: h) :: t
           | [] => [[c]]
           end
  end.

(** What [jwt.verify] hands back: the payload with its two timestamps. *)
Record Decoded := {
  decoded_userId : jsstring;
  decoded_email : jsstring;
  decoded_role : jsstring;
  iat : option Z;
  exp : option Z
}.

(** A middleware either calls [next()] with [req.user] set, or answers. *)
Inductive Gate : Type :=
| Next (user : Decoded)
| Rejected (response : Response).

Inductive Verdict : Type :=
| Pass
| Deny (response : Response).

Section WithJwt.

(** [jwt.verify(token, JWT_SECRET)] at a given time; it throws on a
    token that is malformed, badly signed or expired. *)
Variable jwt_verify : jsstring -> Z -> Outcome Decoded.

Definition authenticateToken (now_ : Z) (authorization : option jsstring) : Gate :=
  let token :=
    match authorization with
    | None => None
    | Some authHeader =>
        if truthy authHeader then nth_error (split_on 32%N authHeader) 1
        else Some authHeader
    end in
  if negb (truthy_field token)
  then Rejected (json 401 (Error "Access token required"))
  else match jwt_verify (field_value token) now_ with
       | Val decoded => Next decoded
       | Throw => Rejected (json 403 (Error "Invalid or expired token"))
       end.

(** [authRoutes.use(authenticateToken)] in front of a handler that reads
    [req.user?.userId]. *)
Definition protected (now_ : Z) (authorization : option jsstring)
    (handler : option Id -> World -> Response * World) : World -> Response * World :=
  fun w => match authenticateToken now_ authorization with
           | Rejected response => (response, w)
           | Next user => handler (Some (decoded_userId user)) w
           end.

End WithJwt.

Definition authorizeRole (roles : list jsstring) (user : option Decoded) : Verdict :=
  match user with
  | None => Deny (json 401 (Error "User not authenticated"))
  | Some user =>
      if negb (existsb (str_eqb (decoded_role user)) roles)
      then Deny (json 403 (Error "Insufficient permissions"))
      else Pass
  end.

End Middleware.
Export Middleware.

(* ================================================================== *)
(** ** The reporting jobs (authJobs) *)

Module Reports.

Record Stats := {
  totalUsers : nat;
  activeUsers : nat;
  activeSessions : nat;
  activeTokens : nat;
  inactiveUsers : Z
}.

(** The events of the two reporting topics. A reporting job resolves to
    the events it handed to [publishEvent], in order. *)
Inductive Report : Type :=
| StatisticsGenerated (timestamp : Z) (stats : Stats)
| UserStatusSync (timestamp : Z) (uid mail : jsstring) (active : bool).

Definition user_count (where_ : User -> bool) : Async nat :=
  fun w => (Val (List.length (filter where_ (users (db w)))), w).

Definition session_count (where_ : TokenRow -> bool) : Async nat :=
  fun w => (Val (List.length (filter where_ (sessions (db w)))), w).

Definition refreshToken_count (where_ : TokenRow -> bool) : Async nat :=
  fun w => (Val (List.length (filter where_ (refreshTokens (db w)))), w).


(** [{ expiresAt: { gt: now } }] *)
Definition live (now_ : Z) : TokenRow -> bool :=
  fun r => Z.ltb now_ (expiresAt r).

Definition generateAuthStats (env : Env) : Async (list Report) :=
  counts <- promise_all (user_count (fun _ => true))
              (promise_all (user_count (fun u => isActive u))
                 (promise_all (session_count (live (now env)))
                              (refreshToken_count (live (now env))))) ;;
  let '(totalUsers_, (activeUsers_, (activeSessions_, activeTokens_))) := counts in
  let stats := {| totalUsers := totalUsers_;
                  activeUsers := activeUsers_;
                  activeSessions := activeSessions_;
                  activeTokens := activeTokens_;
                  inactiveUsers := (Z.of_nat totalUsers_ - Z.of_nat activeUsers_)%Z |} in
  ret [StatisticsGenerated (now env) stats].


End Reports.
Export Reports.

(* ================================================================== *)
(** ** The service as a transition system *)

Module Service.

(** One request, one consumed event or one run of the sweep. *)
Inductive Op : Type :=
| OpRegister (env : Env) (req : RegisterBody)
| OpLogin (env : Env) (req : LoginBody)
| OpRefresh (env : Env) (req_refreshToken : option jsstring)
| OpLogout (env : Env) (req_user : option Id) (req : LogoutBody)
| OpLogoutAll (env : Env) (req_user : option Id)
| OpChangePassword (env : Env) (req_user : option Id) (req : ChangePasswordBody)
| OpUserCreated (env : Env) (message : UserCreated)
| OpUserDeactivated (userId_ : Id)
| OpUserReactivated (userId_ : Id)
| OpCleanup (env : Env).

Definition step {L : Library} (op : Op) (w : World) : World :=
  match op with
  | OpRegister env req => snd (register env req w)
  | OpLogin env req => snd (login env req w)
  | OpRefresh env tok => snd (refreshToken env tok w)
  | OpLogout env user req => snd (logout env user req w)
  | OpLogoutAll env user => snd (logoutAll env user w)
  | OpChangePassword env user req => snd (changePassword env user req w)
  | OpUserCreated env m => onUserCreated env m w
  | OpUserDeactivated uid => onUserDeactivated uid w
  | OpUserReactivated uid => onUserReactivated uid w
  | OpCleanup env => snd (cleanupExpiredSessions env w)
  end.

(** The response of a request; events and the sweep answer nobody. *)
Definition answer {L : Library} (op : Op) (w : World) : option Response :=
  match op with
  | OpRegister env req => Some (fst (register env req w))
  | OpLogin env req => Some (fst (login env req w))
  | OpRefresh env tok => Some (fst (refreshToken env tok w))
  | OpLogout env user req => Some (fst (logout env user req w))
  | OpLogoutAll env user => Some (fst (logoutAll env user w))
  | OpChangePassword env user req => Some (fst (changePassword env user req w))
  | OpUserCreated _ _ | OpUserDeactivated _ | OpUserReactivated _ | OpCleanup _ => None
  end.

Definition run {L : Library} (ops : list Op) (w : World) : World :=
  fold_left (fun acc op => step op acc) ops w.

(** Every token row belongs to a user of the store. *)
Definition owned (us : list User) (l : list TokenRow) : Prop :=
  forall r, In r l -> exists u, In u us /\ id u = userId r.

(** The constraints of the data model on a store. *)
Record consistent (d : Db) : Prop := {
  consistent_ids : unique_ids (users d);
  consistent_emails : unique_emails (users d);
  consistent_usernames : unique_usernames (users d);
  consistent_sessions : unique_tokens (sessions d);
  consistent_refreshTokens : unique_tokens (refreshTokens d);
  consistent_session_owner : owned (users d) (sessions d);
  consistent_refreshToken_owner : owned (users d) (refreshTokens d)
}.

(** The columns of a user that identify the account. *)
Definition same_account (u v : User) : Prop :=
  id u = id v /\ email u = email v /\ username u = username v
  /\ role u = role v /\ createdAt u = createdAt v.

(** SHA-256 digests are 64 lowercase hexadecimal digits. *)
Definition lower_hex (c : code_unit) : Prop :=
  (48 <= c <= 57)%N \/ (97 <= c <= 102)%N.

Definition sha256_contract {L : Library} : Prop :=
  forall s, List.length (sha256_hex s) = 64 /\ Forall lower_hex (sha256_hex s).

(** The row of a user with another stored credential. *)
Definition set_password (pw : jsstring) (u : User) : User :=
  {| id := id u; email := email u; username := username u; password := pw;
     role := role u; isActive := isActive u; createdAt := createdAt u |}.

(** The primitive writes the handlers are made of. The flag tells
    whether the write may overwrite a stored credential. *)
Inductive write {L : Library} : bool -> World -> World -> Prop :=
| write_user (k : bool) (u : User) (w : World) :
    user_insertable role_ok u (users (db w)) = true ->
    write k w (set_users (fun l => l ++ [u]) w)
| write_password (uid : Id) (pw : jsstring) (w : World) :
    write true w
      (set_users (map (fun v => if str_eqb (id v) uid then set_password pw v else v)) w)
| write_active (k : bool) (uid : Id) (b : bool) (w : World) :
    write k w
      (set_users (map (fun v => if str_eqb (id v) uid then set_isActive b v else v)) w)
| write_session (k : bool) (r : TokenRow) (w : World) :
    token_insertable r (sessions (db w)) = true ->
    (exists u, In u (users (db w)) /\ id u = userId r) ->
    write k w (set_sessions (fun l => l ++ [r]) w)
| write_refreshToken (k : bool) (r : TokenRow) (w : World) :
    token_insertable r (refreshTokens (db w)) = true ->
    (exists u, In u (users (db w)) /\ id u = userId r) ->
    write k w (set_refreshTokens (fun l => l ++ [r]) w)
| delete_sessions (k : bool) (where_ : TokenRow -> bool) (w : World) :
    write k w (set_sessions (keep where_) w)
| delete_refreshTokens (k : bool) (where_ : TokenRow -> bool) (w : World) :
    write k w (set_refreshTokens (keep where_) w)
| write_event (k : bool) (e : Event) (w : World) :
    write k w {| db := db w; outbox := outbox w ++ [e] |}.

Inductive writes {L : Library} (k : bool) : World -> World -> Prop :=
| writes_done (w : World) : writes k w w
| writes_then (w1 w2 w3 : World) :
    writes k w1 w2 -> write k w2 w3 -> writes k w1 w3.

Definition changes_credential (op : Op) : bool :=
  match op with
  | OpChangePassword _ _ _ => true
  | _ => false
  end.

End Service.
Export Service.

(* ================================================================== *)
(** ** A stand-in for the JWT verifier *)

Module Samples.

(** The inverse of the reference signer on the user id: a token of the
    form "jwt." followed by an id verifies at any time as that user. *)
Definition ref_verify (tok : jsstring) (t : Z) : Outcome Decoded :=
  if str_eqb (firstn 4 tok) (js "jwt.")
  then Val {| decoded_userId := skipn 4 tok; decoded_email := [];
              decoded_role := []; iat := None; exp := None |}
  else Throw.

End Samples.
Export Samples.

(* ================================================================== *)
(** * Properties *)

(** ** Strings *)

Lemma str_eqb_eq (a b : jsstring) : str_eqb a b = true <-> a = b.
Proof.
  revert b; induction a as [|x a IH]; intros [|y b]; simpl;
    try (split; [discriminate | congruence]); try tauto.
  rewrite andb_true_iff, N.eqb_eq, IH.
  split; [intros [-> ->]; reflexivity | intros H; inversion H; auto].
Qed.

Lemma str_eqb_refl (a : jsstring) : str_eqb a a = true.
Proof. apply str_eqb_eq; reflexivity. Qed.

Lemma str_eqb_neq (a b : jsstring) : str_eqb a b = false <-> a <> b.
Proof.
  rewrite <- str_eqb_eq. destruct (str_eqb a b); split; congruence.
Qed.

Lemma str_eqb_sym (a b : jsstring) : str_eqb a b = str_eqb b a.
Proof.
  destruct (str_eqb a b) eqn:E.
  - apply str_eqb_eq in E; subst; symmetry; apply str_eqb_refl.
  - symmetry; apply str_eqb_neq; apply str_eqb_neq in E; congruence.
Qed.

(** ** What the two patterns accept *)

Lemma test_nil (s : jsstring) : test [] s = true <-> s = [].
Proof. destruct s; simpl; split; congruence. Qed.

(** A term consumes a prefix whose length its quantifier allows. *)
Lemma test_cons (t : Term) (r : Anchored) (s : jsstring) :
  test (t :: r) s = true <->
  exists p q, s = p ++ q
              /\ lo t <= List.length p
              /\ match hi t with Some h => List.length p <= h | None => True end
              /\ forallb (cls t) p = true
              /\ test r q = true.
Proof.
  cbn [test]. rewrite existsb_exists. split.
  - intros (k & Hin & Hk). apply in_seq in Hin.
    unfold prefix_in in Hk. rewrite !andb_true_iff in Hk.
    destruct Hk as [[Hle Hall] Hrest]. apply Nat.leb_le in Hle.
    exists (firstn k s), (skipn k s).
    rewrite firstn_skipn, length_firstn, Nat.min_l by assumption.
    destruct (hi t); repeat split; auto; lia.
  - intros (p & q & -> & Hlo & Hhi & Hall & Hrest).
    exists (List.length p). split.
    + apply in_seq. rewrite length_app. destruct (hi t); lia.
    + unfold prefix_in. rewrite !andb_true_iff, Nat.leb_le, length_app.
      rewrite firstn_app, Nat.sub_diag, firstn_all, firstn_O, app_nil_r.
      rewrite skipn_app, Nat.sub_diag, skipn_all, skipn_O. simpl.
      repeat split; auto; lia.
Qed.

Lemma test_once (c : CharClass) (r : Anchored) (s : jsstring) :
  test (once c :: r) s = true <->
  exists x q, s = x :: q /\ c x = true /\ test r q = true.
Proof.
  rewrite test_cons. simpl. split.
  - intros (p & q & -> & Hlo & Hhi & Hall & Hrest).
    destruct p as [|x [|y p]]; simpl in *; try lia.
    rewrite andb_true_r in Hall. eauto.
  - intros (x & q & -> & Hc & Hrest).
    exists [x], q. simpl. rewrite Hc. auto.
Qed.

Lemma lit_spec (c : ascii) (x : code_unit) : lit c x = true <-> x = cu c.
Proof. unfold lit. apply N.eqb_eq. Qed.

Lemma digit_spec (x : code_unit) : digit x = true <-> is_digit x.
Proof.
  unfold digit, is_digit. rewrite andb_true_iff, !N.leb_le. tauto.
Qed.

Lemma dot_spec (x : code_unit) : dot x = true <-> not_line_terminator x.
Proof.
  unfold dot, is_line_terminator, not_line_terminator.
  rewrite negb_true_iff, !orb_false_iff, !N.eqb_neq. tauto.
Qed.

Lemma hex_ci_spec (x : code_unit) : hex_ci x = true <-> is_hex x.
Proof.
  unfold hex_ci, is_hex.
  rewrite !orb_true_iff, !andb_true_iff, !N.leb_le. tauto.
Qed.

Lemma one_of_spec (cs : string) (x : code_unit) :
  one_of cs x = true <-> In x (js cs).
Proof.
  unfold one_of. rewrite existsb_exists. split.
  - intros (y & Hin & Heq). apply N.eqb_eq in Heq. subst. assumption.
  - intros Hin. exists x. split; [assumption | apply N.eqb_refl].
Qed.

Lemma forallb_spec (c : CharClass) (P : code_unit -> Prop) (l : jsstring) :
  (forall x, c x = true <-> P x) -> forallb c l = true <-> Forall P l.
Proof.
  intros H. rewrite forallb_forall, Forall_forall.
  split; intros Hl x Hx; apply H, Hl, Hx.
Qed.

(** The bcrypt pattern accepts exactly the adaptive shape. *)
Lemma bcryptPattern_spec (s : jsstring) :
  test bcryptPattern s = true <-> AdaptiveShape s.
Proof.
  unfold bcryptPattern, AdaptiveShape. split.
  - intros H.
    apply test_once in H. destruct H as (x1 & q1 & -> & H1 & H).
    apply test_once in H. destruct H as (x2 & q2 & -> & H2 & H).
    apply test_once in H. destruct H as (v & q3 & -> & Hv & H).
    apply test_once in H. destruct H as (x4 & q4 & -> & H4 & H).
    apply test_cons in H. destruct H as (cost & q5 & -> & Hlo & Hhi & Hcost & H).
    apply test_once in H. destruct H as (x6 & q6 & -> & H6 & H).
    apply test_cons in H. destruct H as (rest & q7 & -> & Hlo' & Hhi' & Hrest & H).
    apply test_nil in H. subst q7. simpl in Hlo, Hhi, Hlo', Hhi', Hcost, Hrest.
    apply lit_spec in H1, H2, H4, H6. subst.
    exists v, cost, rest. rewrite app_nil_r. repeat split.
    + apply one_of_spec; assumption.
    + lia.
    + apply (forallb_spec digit is_digit cost digit_spec); assumption.
    + lia.
    + apply (forallb_spec dot not_line_terminator rest dot_spec); assumption.
  - intros (v & cost & rest & -> & Hv & Hlen & Hcost & Hlen' & Hrest).
    apply test_once. exists (cu "$"), (js "2" ++ v :: js "$" ++ cost ++ js "$" ++ rest).
    split; [reflexivity|]. split; [apply lit_spec; reflexivity|].
    apply test_once. exists (cu "2"), (v :: js "$" ++ cost ++ js "$" ++ rest).
    split; [reflexivity|]. split; [apply lit_spec; reflexivity|].
    apply test_once. exists v, (js "$" ++ cost ++ js "$" ++ rest).
    split; [reflexivity|]. split; [apply one_of_spec; assumption|].
    apply test_once. exists (cu "$"), (cost ++ js "$" ++ rest).
    split; [reflexivity|]. split; [apply lit_spec; reflexivity|].
    apply test_cons. exists cost, (js "$" ++ rest).
    split; [reflexivity|]. split; [simpl; lia|]. split; [simpl; lia|].
    split; [apply (forallb_spec digit is_digit cost digit_spec); assumption|].
    apply test_once. exists (cu "$"), rest.
    split; [reflexivity|]. split; [apply lit_spec; reflexivity|].
    apply test_cons. exists rest, []. rewrite app_nil_r.
    split; [reflexivity|]. split; [simpl; lia|]. split; [simpl; lia|].
    split; [apply (forallb_spec dot not_line_terminator rest dot_spec); assumption|].
    reflexivity.
Qed.

(** The length test and the hexadecimal pattern accept exactly the
    64-character hexadecimal strings. *)
Lemma hexPattern_spec (s : jsstring) :
  Nat.eqb (List.length s) 64 && test hexPattern s = true <-> HexDigest64 s.
Proof.
  unfold hexPattern, HexDigest64. rewrite andb_true_iff, Nat.eqb_eq. split.
  - intros [Hlen H]. split; [assumption|].
    apply test_cons in H. destruct H as (p & q & -> & _ & _ & Hall & Hq).
    apply test_nil in Hq. subst q. rewrite app_nil_r.
    apply (forallb_spec hex_ci is_hex p hex_ci_spec); assumption.
  - intros [Hlen Hall]. split; [assumption|].
    apply test_cons. exists s, []. rewrite app_nil_r.
    split; [reflexivity|]. split; [simpl; lia|]. split; [exact I|].
    split; [apply (forallb_spec hex_ci is_hex s hex_ci_spec); assumption | reflexivity].
Qed.

(** Every credential has an encoding, and only one. *)
Lemma encoding_of_total (s : jsstring) : exists e, encoding_of s e.
Proof.
  destruct (test bcryptPattern s) eqn:Hb.
  - exists Adaptive. constructor. apply bcryptPattern_spec; assumption.
  - assert (~ AdaptiveShape s) by (rewrite <- bcryptPattern_spec; congruence).
    destruct (Nat.eqb (List.length s) 64 && test hexPattern s) eqn:Hh.
    + exists LegacyDigest. constructor; [assumption | apply hexPattern_spec; assumption].
    + exists PlainFallback. constructor; [assumption|].
      rewrite <- hexPattern_spec; congruence.
Qed.

Lemma encoding_of_functional (s : jsstring) (e1 e2 : Encoding) :
  encoding_of s e1 -> encoding_of s e2 -> e1 = e2.
Proof. intros [] []; tauto || reflexivity. Qed.

(** The two shapes exclude each other: a hexadecimal digest does not
    start with a dollar sign. *)
Lemma adaptive_not_hex (s : jsstring) : AdaptiveShape s -> ~ HexDigest64 s.
Proof.
  intros (v & cost & rest & -> & _) [_ Hall].
  inversion Hall as [|x l Hx _]. subst.
  unfold is_hex in Hx. simpl in Hx. lia.
Qed.

Section VerifierFacts.
Context {L : Library}.

Lemma verifyPassword_adaptive (plain stored : jsstring) :
  AdaptiveShape stored ->
  verifyPassword plain stored = bcrypt_compare plain stored.
Proof.
  intros H. apply bcryptPattern_spec in H.
  unfold verifyPassword. rewrite H. reflexivity.
Qed.

Lemma verifyPassword_legacy (plain stored : jsstring) :
  ~ AdaptiveShape stored -> HexDigest64 stored ->
  verifyPassword plain stored = Val (str_eqb (sha256_hex plain) stored).
Proof.
  intros Hn Hh. apply hexPattern_spec in Hh.
  rewrite <- bcryptPattern_spec in Hn. apply not_true_is_false in Hn.
  unfold verifyPassword. rewrite Hn, Hh. reflexivity.
Qed.

Lemma verifyPassword_plain (plain stored : jsstring) :
  ~ AdaptiveShape stored -> ~ HexDigest64 stored ->
  verifyPassword plain stored = Val (str_eqb plain stored).
Proof.
  intros Hn Hh. rewrite <- hexPattern_spec in Hh. apply not_true_is_false in Hh.
  rewrite <- bcryptPattern_spec in Hn. apply not_true_is_false in Hn.
  unfold verifyPassword. rewrite Hn, Hh. reflexivity.
Qed.

Lemma verifyPassword_branch (e : Encoding) (plain stored : jsstring) :
  encoding_of stored e ->
  verifyPassword plain stored =
    match e with
    | Adaptive => bcrypt_compare plain stored
    | LegacyDigest => Val (str_eqb (hashPasswordSHA256 plain) stored)
    | PlainFallback => Val (str_eqb plain stored)
    end.
Proof.
  intros [Ha | Hn Hh | Hn Hh].
  - apply verifyPassword_adaptive; assumption.
  - apply verifyPassword_legacy; assumption.
  - apply verifyPassword_plain; assumption.
Qed.

Lemma verifyPassword_accepts (e : Encoding) (plain stored : jsstring) :
  encoding_of stored e -> correct_for e plain stored ->
  verifyPassword plain stored = Val true.
Proof.
  intros He Hok. rewrite (verifyPassword_branch plain He).
  destruct e; simpl in *.
  - assumption.
  - unfold hashPasswordSHA256. rewrite Hok, str_eqb_refl. reflexivity.
  - rewrite Hok, str_eqb_refl. reflexivity.
Qed.

Lemma verifyPassword_accepted (e : Encoding) (plain stored : jsstring) :
  encoding_of stored e -> verifyPassword plain stored = Val true ->
  correct_for e plain stored.
Proof.
  intros He. rewrite (verifyPassword_branch plain He).
  destruct e; simpl; intros Hv.
  - assumption.
  - apply str_eqb_eq. unfold hashPasswordSHA256 in Hv. congruence.
  - apply str_eqb_eq. congruence.
Qed.

(** X29. Whatever the encoding of the stored credential -- adaptive
    shape first, then 64 hexadecimal characters, then anything else --
    [verifyPassword] takes the branch of that encoding and answers true
    exactly on the password that is correct for it. On any other
    password it answers false, with one exception: a credential of the
    adaptive shape on which [bcrypt.compare] rejects, where it throws. *)
Theorem verifyPassword_by_encoding (e : Encoding) (plain stored : jsstring) :
  encoding_of stored e ->
  verifyPassword plain stored =
    match e with
    | Adaptive => bcrypt_compare plain stored
    | LegacyDigest => Val (str_eqb (hashPasswordSHA256 plain) stored)
    | PlainFallback => Val (str_eqb plain stored)
    end
  /\ (verifyPassword plain stored = Val true <-> correct_for e plain stored)
  /\ (~ correct_for e plain stored ->
      verifyPassword plain stored = Val false
      \/ (e = Adaptive /\ bcrypt_compare plain stored = Throw
          /\ verifyPassword plain stored = Throw)).
Proof.
  intros He. split; [|split].
  - apply verifyPassword_branch; assumption.
  - split.
    + apply verifyPassword_accepted; assumption.
    + apply verifyPassword_accepts; assumption.
  - intros Hbad. rewrite (verifyPassword_branch plain He).
    destruct e; simpl in *.
    + destruct (bcrypt_compare plain stored) as [[|]|]; auto. contradiction.
    + left. apply str_eqb_neq in Hbad. unfold hashPasswordSHA256.
      rewrite Hbad. reflexivity.
    + left. apply str_eqb_neq in Hbad. rewrite Hbad. reflexivity.
Qed.

(** C1 fails on the code: on a stored credential of the adaptive shape
    that bcrypt cannot parse, [bcrypt.compare] rejects and
    [verifyPassword], which catches nothing, throws. The credential is
    classified as adaptive and the password is not the correct one for
    it, yet the answer is not false. *)
Theorem verifyPassword_throws_on_unparsable_hash (plain stored : jsstring) :
  AdaptiveShape stored -> bcrypt_compare plain stored = Throw ->
  encoding_of stored Adaptive
  /\ ~ correct_for Adaptive plain stored
  /\ verifyPassword plain stored = Throw
  /\ verifyPassword plain stored <> Val false.
Proof.
  intros Hshape Hthrow.
  assert (Hv : verifyPassword plain stored = Throw).
  { rewrite verifyPassword_adaptive; assumption. }
  split; [apply enc_adaptive; assumption|].
  split; [simpl; congruence|].
  split; [assumption | congruence].
Qed.

End VerifierFacts.

(** ** Lookups in a table with a unique column *)

Lemma find_unique {A : Type} (key : A -> jsstring) (l : list A) (x : A) :
  NoDup (map key l) -> In x l ->
  find (fun y => str_eqb (key y) (key x)) l = Some x.
Proof.
  induction l as [|a l IH]; simpl; intros Hnd Hin; [contradiction|].
  inversion Hnd as [|k ks Hnotin Hnd']; subst.
  destruct Hin as [-> | Hin].
  - rewrite str_eqb_refl. reflexivity.
  - destruct (str_eqb (key a) (key x)) eqn:E.
    + apply str_eqb_eq in E. exfalso. apply Hnotin. rewrite E.
      apply in_map. assumption.
    + apply IH; assumption.
Qed.

Lemma find_absent {A : Type} (p : A -> bool) (l : list A) :
  (forall x, In x l -> p x = false) -> find p l = None.
Proof.
  induction l as [|a l IH]; simpl; intros H; [reflexivity|].
  rewrite (H a) by auto. apply IH. auto.
Qed.

Lemma keep_In (where_ : TokenRow -> bool) (l : list TokenRow) (r : TokenRow) :
  In r (keep where_ l) <-> In r l /\ where_ r = false.
Proof. unfold keep. rewrite filter_In, negb_true_iff. tauto. Qed.

Lemma keep_idempotent (where_ : TokenRow -> bool) (l : list TokenRow) :
  keep where_ (keep where_ l) = keep where_ l.
Proof.
  unfold keep. induction l as [|a l IH]; simpl; [reflexivity|].
  destruct (where_ a) eqn:E; simpl; [assumption|].
  rewrite E. simpl. f_equal. assumption.
Qed.

Lemma rows_of_keep (uid : Id) (l : list TokenRow) :
  rows_of uid (keep (by_userId uid) l) = [].
Proof.
  unfold rows_of, keep. induction l as [|a l IH]; simpl; [reflexivity|].
  destruct (by_userId uid a) eqn:E; simpl; [assumption|].
  rewrite E. assumption.
Qed.

Lemma count_keep (where_ : TokenRow -> bool) (l : list TokenRow) :
  count where_ l + List.length (keep where_ l) = List.length l.
Proof.
  unfold count, keep. induction l as [|a l IH]; simpl; [reflexivity|].
  destruct (where_ a); simpl; lia.
Qed.

(** ** Refresh *)

Section RefreshFacts.
Context {L : Library}.

(** C2. A refresh with a stored, unexpired refresh token whose owner is
    inactive is answered with the inactive-account failure, which is
    the AUTH_FORBIDDEN outcome and not the AUTH_INVALID one; no access
    token is handed out, nothing is published and the store is left
    as it was. *)
Theorem refresh_inactive_user_forbidden
    (env : Env) (w : World) (row : TokenRow) (owner : User) :
  unique_tokens (refreshTokens (db w)) ->
  unique_ids (users (db w)) ->
  In row (refreshTokens (db w)) ->
  truthy (token row) = true ->
  (now env <= expiresAt row)%Z ->
  In owner (users (db w)) ->
  id owner = userId row ->
  isActive owner = false ->
  let (response, w') := refreshToken env (Some (token row)) w in
  response = json 401 (Error "User account is inactive")
  /\ error_kind response = Some AUTH_FORBIDDEN
  /\ error_kind response <> Some AUTH_INVALID
  /\ mints_access_token response = false
  /\ w' = w.
Proof.
  intros Htok Hids Hrow Htruthy Hfresh Howner Hid Hinactive.
  unfold refreshToken, try_catch, bind, refreshToken_findUnique. simpl.
  rewrite Htruthy. simpl.
  rewrite (find_unique token _ row Htok Hrow).
  rewrite <- Hid, (find_unique id _ owner Hids Howner). simpl.
  apply Z.ltb_ge in Hfresh. rewrite Hfresh, Hinactive. simpl.
  repeat split; discriminate.
Qed.

(** C5. A refresh with a token that no row of the store carries, or
    whose row expired before now, is answered with the AUTH_INVALID
    failure; no access token is handed out, nothing is published and
    the store is left as it was. *)
Theorem refresh_unknown_or_expired_invalid
    (env : Env) (w : World) (tok : jsstring) :
  truthy tok = true ->
  unique_tokens (refreshTokens (db w)) ->
  (forall r, In r (refreshTokens (db w)) -> token r <> tok)
  \/ (exists r, In r (refreshTokens (db w)) /\ token r = tok
                /\ (expiresAt r < now env)%Z) ->
  let (response, w') := refreshToken env (Some tok) w in
  response = json 401 (Error "Invalid or expired refresh token")
  /\ error_kind response = Some AUTH_INVALID
  /\ mints_access_token response = false
  /\ w' = w.
Proof.
  intros Htruthy Huniq Hcase.
  unfold refreshToken, try_catch, bind, refreshToken_findUnique. simpl.
  rewrite Htruthy. simpl.
  destruct Hcase as [Habsent | (r & Hin & <- & Hexp)].
  - rewrite find_absent.
    + simpl. repeat split.
    + intros x Hx. apply str_eqb_neq. apply Habsent. assumption.
  - rewrite (find_unique token _ r Huniq Hin). simpl.
    apply Z.ltb_lt in Hexp. rewrite Hexp. simpl. repeat split.
Qed.

End RefreshFacts.

(** ** Login *)

Section LoginFacts.
Context {L : Library}.

Lemma login_unknown_account (env : Env) (w : World) (x pw : jsstring) :
  truthy x = true -> truthy pw = true -> no_account x w ->
  login env {| login_emailOrUsername := Some x; login_password := Some pw |} w
  = (json 401 (Error "Invalid credentials"), w).
Proof.
  intros Hx Hpw Hnone.
  unfold login, try_catch, bind, user_findFirst. simpl.
  rewrite Hx, Hpw. simpl.
  rewrite find_absent; [reflexivity|].
  intros u Hu. destruct (isActive u) eqn:Ha.
  - destruct (Hnone u Hu Ha) as [He Hn].
    apply str_eqb_neq in He, Hn. rewrite He, Hn. reflexivity.
  - apply andb_false_r.
Qed.

Lemma login_wrong_password (env : Env) (w : World) (x pw : jsstring) :
  truthy x = true -> truthy pw = true -> wrong_password x pw w ->
  login env {| login_emailOrUsername := Some x; login_password := Some pw |} w
  = (json 401 (Error "Invalid credentials"), w).
Proof.
  intros Hx Hpw [(u & Hu & Ha & Hm) Hbad].
  unfold login, try_catch, bind, user_findFirst, await. simpl.
  rewrite Hx, Hpw. simpl.
  destruct (find _ (users (db w))) as [v|] eqn:Hfind.
  - apply find_some in Hfind. destruct Hfind as [Hv Hp].
    apply andb_true_iff in Hp. destruct Hp as [Hp Hav].
    apply orb_true_iff in Hp. rewrite !str_eqb_eq in Hp.
    rewrite (Hbad v Hv Hav Hp). reflexivity.
  - reflexivity.
Qed.

Lemma login_unverifiable_password (env : Env) (w : World) (x pw : jsstring) :
  truthy x = true -> truthy pw = true -> unverifiable_password x pw w ->
  login env {| login_emailOrUsername := Some x; login_password := Some pw |} w
  = (json 500 (Error "Failed to login"), w).
Proof.
  intros Hx Hpw [(u & Hu & Ha & Hm) Hbad].
  unfold login, try_catch, bind, user_findFirst, await. simpl.
  rewrite Hx, Hpw. simpl.
  destruct (find _ (users (db w))) as [v|] eqn:Hfind.
  - apply find_some in Hfind. destruct Hfind as [Hv Hp].
    apply andb_true_iff in Hp. destruct Hp as [Hp Hav].
    apply orb_true_iff in Hp. rewrite !str_eqb_eq in Hp.
    destruct (Hbad v Hv Hav Hp) as [Hshape Hthrow].
    rewrite (verifyPassword_adaptive pw Hshape), Hthrow. reflexivity.
  - exfalso. apply (find_none _ _ Hfind) in Hu.
    rewrite Ha, andb_true_r in Hu. apply orb_false_iff in Hu.
    rewrite !str_eqb_neq in Hu. destruct Hu, Hm; contradiction.
Qed.

(** C10 fails on the code: when the credential of the existing account
    has the adaptive shape and bcrypt cannot parse it, a login with a
    password that is not the correct one is answered 500 "Failed to
    login", a login for an identifier that no account answers to 401
    "Invalid credentials". Neither changes the store, but the two
    responses differ: the caller learns that the account exists. *)
Theorem login_reveals_account_with_unparsable_hash
    (env1 env2 : Env) (w1 w2 : World) (x1 pw1 x2 pw2 : jsstring) :
  truthy x1 = true -> truthy pw1 = true ->
  truthy x2 = true -> truthy pw2 = true ->
  no_account x1 w1 ->
  unverifiable_password x2 pw2 w2 ->
  let (r1, w1') :=
    login env1 {| login_emailOrUsername := Some x1; login_password := Some pw1 |} w1 in
  let (r2, w2') :=
    login env2 {| login_emailOrUsername := Some x2; login_password := Some pw2 |} w2 in
  r1 <> r2
  /\ r1 = json 401 (Error "Invalid credentials")
  /\ r2 = json 500 (Error "Failed to login")
  /\ error_kind r1 = Some AUTH_INVALID
  /\ error_kind r2 = Some DEPENDENCY_FAILURE
  /\ w1' = w1 /\ w2' = w2
  /\ (forall u, In u (users (db w2)) -> isActive u = true ->
                email u = x2 \/ username u = x2 ->
                ~ correct_for Adaptive pw2 (password u)).
Proof.
  intros Hx1 Hp1 Hx2 Hp2 Hnone Hbad.
  rewrite login_unknown_account by assumption.
  rewrite login_unverifiable_password by assumption.
  split; [discriminate|]. repeat (split; [reflexivity|]).
  intros u Hu Ha Hm. destruct Hbad as [_ Hbad].
  destruct (Hbad u Hu Ha Hm) as [_ Hthrow]. simpl. congruence.
Qed.

(** X30. A login for an identifier that no active account answers to
    and a login for an existing account with a password on which the
    verifier answers false receive the same response, the AUTH_INVALID
    failure with the same message, and neither changes the store nor
    publishes anything. (A password on which the verifier throws is not
    among them.) *)
Theorem rejected_password_looks_like_unknown_account
    (env1 env2 : Env) (w1 w2 : World) (x1 pw1 x2 pw2 : jsstring) :
  truthy x1 = true -> truthy pw1 = true ->
  truthy x2 = true -> truthy pw2 = true ->
  no_account x1 w1 ->
  wrong_password x2 pw2 w2 ->
  let (r1, w1') :=
    login env1 {| login_emailOrUsername := Some x1; login_password := Some pw1 |} w1 in
  let (r2, w2') :=
    login env2 {| login_emailOrUsername := Some x2; login_password := Some pw2 |} w2 in
  r1 = r2
  /\ error_kind r1 = Some AUTH_INVALID
  /\ mints_access_token r1 = false
  /\ w1' = w1 /\ w2' = w2.
Proof.
  intros Hx1 Hp1 Hx2 Hp2 Hnone Hwrong.
  rewrite login_unknown_account by assumption.
  rewrite login_wrong_password by assumption.
  repeat split.
Qed.

End LoginFacts.

(** ** The expiry sweep *)

(** C9. One run of the sweep keeps exactly the Session and RefreshToken
    rows that do not expire strictly before now, touches no user, and
    publishes one summary event whose two counts are the numbers of rows
    deleted from each table. *)
Theorem cleanupExpiredSessions_sweeps_expired (env : Env) (w : World) :
  let (result, w') := cleanupExpiredSessions env w in
  let deletedSessions := List.length (sessions (db w)) - List.length (sessions (db w')) in
  let deletedTokens :=
    List.length (refreshTokens (db w)) - List.length (refreshTokens (db w')) in
  result = Val tt
  /\ (forall r, In r (sessions (db w')) <->
                In r (sessions (db w)) /\ (now env <= expiresAt r)%Z)
  /\ (forall r, In r (refreshTokens (db w')) <->
                In r (refreshTokens (db w)) /\ (now env <= expiresAt r)%Z)
  /\ sessions (db w') = filter (fun r => negb (expiresAt r <? now env)%Z) (sessions (db w))
  /\ refreshTokens (db w')
     = filter (fun r => negb (expiresAt r <? now env)%Z) (refreshTokens (db w))
  /\ users (db w') = users (db w)
  /\ outbox w' = outbox w ++ [SessionsCleanedUp (now env) deletedSessions deletedTokens].
Proof.
  unfold cleanupExpiredSessions, bind, session_deleteMany, refreshToken_deleteMany,
    publishEvent, ret. simpl.
  assert (Hin : forall l r, In r (keep (expired (now env)) l) <->
                            In r l /\ (now env <= expiresAt r)%Z).
  { intros l r. rewrite keep_In. unfold expired. rewrite Z.ltb_ge. tauto. }
  split; [reflexivity|]. split; [apply Hin|]. split; [apply Hin|].
  split; [reflexivity|]. split; [reflexivity|]. split; [reflexivity|].
  pose proof (count_keep (expired (now env)) (sessions (db w))).
  pose proof (count_keep (expired (now env)) (refreshTokens (db w))).
  do 2 f_equal. f_equal; lia.
Qed.

(** The scenario of the specification: a session that expired one second
    ago and one that expires in an hour. *)
Example cleanup_scenario :
  let t := 1700000000000%Z in
  let old := {| userId := js "u1"; token := js "s-old"; expiresAt := t - 1000 |} in
  let live := {| userId := js "u1"; token := js "s-live"; expiresAt := t + 3600000 |} in
  let w := {| db := {| users := []; sessions := [old; live]; refreshTokens := [] |};
              outbox := [] |} in
  cleanupExpiredSessions (env_at t "-" "-" "-" "-") w
  = (Val tt, {| db := {| users := []; sessions := [live]; refreshTokens := [] |};
                outbox := [SessionsCleanedUp t 1 0] |}).
Proof. reflexivity. Qed.

(** ** Deactivation *)

Lemma map_deactivate_idempotent (uid : Id) (l : list User) :
  let f := fun v => if str_eqb (id v) uid then set_isActive false v else v in
  map f (map f l) = map f l.
Proof.
  simpl. rewrite map_map. apply map_ext. intros v.
  destruct (str_eqb (id v) uid) eqn:E; simpl; rewrite E; reflexivity.
Qed.

Lemma onUserDeactivated_db (uid : Id) (w : World) :
  onUserDeactivated uid w =
  {| db := {| users := map (fun v => if str_eqb (id v) uid
                                     then set_isActive false v else v)
                           (users (db w));
              sessions := keep (by_userId uid) (sessions (db w));
              refreshTokens := keep (by_userId uid) (refreshTokens (db w)) |};
     outbox := outbox w |}.
Proof.
  unfold onUserDeactivated, try_catch, bind, promise_all, user_update,
    session_deleteMany, refreshToken_deleteMany, ret.
  destruct (find (fun u => str_eqb (id u) uid) (users (db w))) eqn:Hfind; simpl.
  - reflexivity.
  - assert (Hsame : map (fun v => if str_eqb (id v) uid
                                  then set_isActive false v else v) (users (db w))
                    = users (db w)).
    { rewrite <- (map_id (users (db w))) at 2. apply map_ext_in.
      intros v Hv. destruct (str_eqb (id v) uid) eqn:E; [|reflexivity].
      exfalso. apply (find_none _ _ Hfind) in Hv. congruence. }
    rewrite Hsame. reflexivity.
Qed.

(** C6. After a user.deactivated event every row of the user is
    inactive, the user has no Session and no RefreshToken row, the rows
    of other users are the ones they had, nothing is published; a second
    application of the same event changes nothing. *)
Theorem onUserDeactivated_idempotent (uid : Id) (w : World) :
  let w1 := onUserDeactivated uid w in
  (forall u, In u (users (db w1)) -> id u = uid -> isActive u = false)
  /\ List.length (users (db w1)) = List.length (users (db w))
  /\ rows_of uid (sessions (db w1)) = []
  /\ rows_of uid (refreshTokens (db w1)) = []
  /\ (forall r, userId r <> uid ->
                (In r (sessions (db w1)) <-> In r (sessions (db w)))
                /\ (In r (refreshTokens (db w1)) <-> In r (refreshTokens (db w))))
  /\ (forall u, id u <> uid -> (In u (users (db w1)) <-> In u (users (db w))))
  /\ outbox w1 = outbox w
  /\ onUserDeactivated uid w1 = w1.
Proof.
  simpl. rewrite !onUserDeactivated_db. simpl.
  split; [|split; [|split; [|split; [|split; [|split; [|split]]]]]].
  - intros u Hu Hid. apply in_map_iff in Hu. destruct Hu as (v & <- & _).
    destruct (str_eqb (id v) uid) eqn:E; [reflexivity|].
    apply str_eqb_neq in E. contradiction.
  - apply length_map.
  - apply rows_of_keep.
  - apply rows_of_keep.
  - intros r Hr. rewrite !keep_In. unfold by_userId.
    apply str_eqb_neq in Hr. rewrite Hr. tauto.
  - intros u Hu. apply str_eqb_neq in Hu. rewrite in_map_iff. split.
    + intros (v & Hv & Hin). destruct (str_eqb (id v) uid) eqn:E.
      * subst u. simpl in Hu. congruence.
      * subst u. assumption.
    + intros Hin. exists u. rewrite Hu. auto.
  - reflexivity.
  - rewrite !keep_idempotent.
    rewrite (map_deactivate_idempotent uid (users (db w))). reflexivity.
Qed.

(** ** Logout and logout from all devices *)

Lemma unique_tokens_inj (l : list TokenRow) (x y : TokenRow) :
  unique_tokens l -> In x l -> In y l -> token x = token y -> x = y.
Proof.
  intros Hu Hx Hy Heq.
  pose proof (find_unique token l x Hu Hx) as Fx.
  pose proof (find_unique token l y Hu Hy) as Fy.
  rewrite Heq in Fx. congruence.
Qed.

Lemma rows_of_keep_comm (uid : Id) (p : TokenRow -> bool) (l : list TokenRow) :
  rows_of uid (keep p l) = keep p (rows_of uid l).
Proof.
  unfold rows_of, keep. induction l as [|a l IH]; simpl; [reflexivity|].
  destruct (p a) eqn:Ep, (by_userId uid a) eqn:Eu; simpl;
    rewrite ?Ep, ?Eu; simpl; rewrite ?IH; reflexivity.
Qed.

Lemma rows_of_In (uid : Id) (l : list TokenRow) (r : TokenRow) :
  In r (rows_of uid l) <-> In r l /\ userId r = uid.
Proof. unfold rows_of, by_userId. rewrite filter_In, str_eqb_eq. tauto. Qed.

Lemma keep_other_user (uid : Id) (l : list TokenRow) (r : TokenRow) :
  userId r <> uid -> In r (keep (by_userId uid) l) <-> In r l.
Proof.
  intros H. rewrite keep_In. unfold by_userId.
  apply str_eqb_neq in H. rewrite H. tauto.
Qed.

(** C8. For a user who holds one session and one refresh token, a
    logout that names only the session token removes exactly that
    Session row and leaves the RefreshToken table as it was; a following
    logoutAll removes every Session and RefreshToken row of the user and
    no row of anyone else. *)
Theorem logout_then_logoutAll
    (env1 env2 : Env) (uid : Id) (w : World) (s r : TokenRow) :
  truthy uid = true ->
  truthy (token s) = true ->
  unique_tokens (sessions (db w)) ->
  rows_of uid (sessions (db w)) = [s] ->
  rows_of uid (refreshTokens (db w)) = [r] ->
  let (resp1, w1) :=
    logout env1 (Some uid)
           {| logout_refreshToken := None; logout_sessionToken := Some (token s) |} w in
  let (resp2, w2) := logoutAll env2 (Some uid) w1 in
  (resp1 = json 200 (Message "Logout successful")
   /\ (forall x, In x (sessions (db w1)) <-> In x (sessions (db w)) /\ x <> s)
   /\ List.length (rows_of uid (sessions (db w1))) = 0
   /\ refreshTokens (db w1) = refreshTokens (db w)
   /\ List.length (rows_of uid (refreshTokens (db w1))) = 1
   /\ users (db w1) = users (db w))
  /\ (resp2 = json 200 (Message "Logged out from all devices")
      /\ List.length (rows_of uid (sessions (db w2))) = 0
      /\ List.length (rows_of uid (refreshTokens (db w2))) = 0
      /\ (forall x, userId x <> uid ->
                    (In x (sessions (db w2)) <-> In x (sessions (db w1)))
                    /\ (In x (refreshTokens (db w2)) <-> In x (refreshTokens (db w1))))
      /\ users (db w2) = users (db w)).
Proof.
  intros Huid Htok Huniq Hs Hr.
  assert (Hin : In s (sessions (db w))).
  { apply (rows_of_In uid). rewrite Hs. left. reflexivity. }
  unfold logout, logoutAll, try_catch, bind, promise_all, session_deleteMany,
    refreshToken_deleteMany, publishEvent, ret. simpl.
  rewrite Htok, Huid. simpl.
  split; [|split; [reflexivity|]].
  - split; [reflexivity|]. split; [|split; [|split; [|split]]].
    + intros x. rewrite keep_In. unfold by_token. rewrite str_eqb_neq. split.
      * intros [Hx Hne]. split; [assumption|]. congruence.
      * intros [Hx Hne]. split; [assumption|]. intros Heq. apply Hne.
        eapply unique_tokens_inj; eassumption.
    + rewrite rows_of_keep_comm, Hs. unfold keep, by_token. simpl.
      rewrite str_eqb_refl. reflexivity.
    + reflexivity.
    + rewrite Hr. reflexivity.
    + reflexivity.
  - rewrite !rows_of_keep. split; [reflexivity|]. split; [reflexivity|].
    split; [|reflexivity].
    intros x Hx. split; apply keep_other_user; assumption.
Qed.

(** The scenario of the specification, on the reference libraries:
    register, login, logout with the session token, logoutAll. *)
Example logout_scenario :
  let reg := {| reg_email := Some (js "a@x.com"); reg_username := Some (js "a");
                reg_password := Some (js "secret123"); reg_role := None |} in
  let cred := {| login_emailOrUsername := Some (js "a");
                 login_password := Some (js "secret123") |} in
  let out := {| logout_refreshToken := None; logout_sessionToken := Some (js "s1") |} in
  let '(r0, w0) := register (L := reference) (env_at 1000 "u1" "salt0" "r0" "-") reg
                            empty_world in
  let '(r1, w1) := login (L := reference) (env_at 2000 "-" "-" "r1" "s1") cred w0 in
  let '(r2, w2) := logout (env_at 3000 "-" "-" "-" "-") (Some (js "u1")) out w1 in
  let '(r3, w3) := logoutAll (env_at 4000 "-" "-" "-" "-") (Some (js "u1")) w2 in
  let counts w := (List.length (rows_of (js "u1") (sessions (db w))),
                   List.length (rows_of (js "u1") (refreshTokens (db w)))) in
  (status r0, status r1, status r2, status r3) = (201, 200, 200, 200)%Z
  /\ (counts w0, counts w1, counts w2, counts w3) = ((0, 1), (1, 2), (0, 2), (0, 0)).
Proof. vm_compute. split; reflexivity. Qed.

(** ** The user.created consumer *)

Lemma NoDup_snoc {A : Type} (l : list A) (x : A) :
  NoDup l -> ~ In x l -> NoDup (l ++ [x]).
Proof.
  induction l as [|a l IH]; simpl; intros Hnd Hx.
  - constructor; [intros [] | constructor].
  - inversion Hnd as [|b k Ha Hl]; subst. constructor.
    + rewrite in_app_iff. simpl. intros [H | [H | []]]; [auto | subst; auto].
    + apply IH; auto.
Qed.

Section CreatedFacts.
Context {L : Library}.

(** The row the consumer tries to insert, given the credential it chose. *)
Lemma onUserCreated_unfold (env : Env) (m : UserCreated) (w : World) :
  onUserCreated env m w =
  match (if truthy_field (msg_hashedPassword m) then msg_hashedPassword m
         else if truthy_field (msg_password m) then msg_password m
         else None) with
  | None => w
  | Some finalPassword =>
      match created_date env m with
      | None => w
      | Some t =>
          let u := {| id := fresh_id env;
                      email := msg_email m;
                      username := msg_email m;
                      password := finalPassword;
                      role := msg_role m;
                      isActive := msg_isActive m;
                      createdAt := t |} in
          if user_insertable role_ok u (users (db w))
          then set_users (fun l => l ++ [u]) w
          else w
      end
  end.
Proof.
  unfold onUserCreated, try_catch, bind, user_create, throw, ret.
  destruct (created_date env m) as [t|];
  destruct (msg_hashedPassword m) as [h|], (msg_password m) as [p|]; simpl;
    repeat match goal with
           | |- context [truthy ?s] => destruct (truthy s); simpl
           | |- context [user_insertable ?a ?b ?c] =>
               destruct (user_insertable a b c); simpl
           end; reflexivity.
Qed.

(** Whether the date of the row exists does not depend on the clock. *)
Lemma created_date_invalid (env1 env2 : Env) (m : UserCreated) :
  created_date env1 m = None -> created_date env2 m = None.
Proof.
  unfold created_date. destruct (msg_createdAt m) as [d|]; [|discriminate].
  destruct (truthy_date d); [auto | discriminate].
Qed.

Lemma insertable_after_insert (u v : User) (l : list User) :
  email u = email v -> user_insertable role_ok v (l ++ [u]) = false.
Proof.
  intros He. unfold user_insertable.
  rewrite existsb_app. simpl. rewrite He, str_eqb_refl.
  rewrite !orb_true_r. simpl. apply andb_false_r.
Qed.

Lemma not_insertable_replay (u v : User) (l : list User) :
  ~ In (id u) (map id l) ->
  email u = email v -> username u = username v -> role u = role v ->
  user_insertable role_ok u l = false -> user_insertable role_ok v l = false.
Proof.
  intros Hfresh He Hn Hr. unfold user_insertable. rewrite <- Hr, <- He, <- Hn.
  destruct (role_ok (role u)); simpl; [|reflexivity].
  rewrite !negb_false_iff, !existsb_exists.
  intros (x & Hx & Hm). exists x. split; [assumption|].
  destruct (str_eqb (id x) (id u)) eqn:E.
  - apply str_eqb_eq in E. exfalso. apply Hfresh. rewrite <- E.
    apply in_map. assumption.
  - simpl in Hm. apply orb_true_iff in Hm. destruct Hm as [Hm | Hm]; rewrite Hm.
    + rewrite orb_true_r. reflexivity.
    + apply orb_true_r.
Qed.

Lemma insertable_fresh (u : User) (l : list User) :
  user_insertable role_ok u l = true ->
  forall v, In v l -> id v <> id u /\ email v <> email u /\ username v <> username u.
Proof.
  unfold user_insertable. rewrite andb_true_iff, negb_true_iff.
  intros [_ H] v Hv.
  assert (Hv' : str_eqb (id v) (id u) || str_eqb (email v) (email u)
                || str_eqb (username v) (username u) = false).
  { destruct (_ || _ || _) eqn:E; [|reflexivity].
    rewrite <- H. symmetry. apply existsb_exists. eauto. }
  rewrite !orb_false_iff, !str_eqb_neq in Hv'. tauto.
Qed.

(** C3 (as amended). When the key drawn for the new row is fresh, a
    user.created event applied a second time changes nothing: the
    first application either leaves the users as they are or appends
    one row whose email and username no earlier row has, the replay is
    rejected by the uniqueness of the email and dropped, and emails
    and usernames that were unique stay unique. An existing row is
    never modified. *)
Theorem onUserCreated_replay
    (env1 env2 : Env) (m : UserCreated) (w : World) :
  ~ In (fresh_id env1) (map id (users (db w))) ->
  let w1 := onUserCreated env1 m w in
  let w2 := onUserCreated env2 m w1 in
  w2 = w1
  /\ (w1 = w
      \/ exists u, w1 = set_users (fun l => l ++ [u]) w
                   /\ email u = msg_email m /\ username u = msg_email m
                   /\ forall v, In v (users (db w)) ->
                                id v <> id u /\ email v <> email u
                                /\ username v <> username u)
  /\ (unique_emails (users (db w)) -> unique_emails (users (db w1)))
  /\ (unique_usernames (users (db w)) -> unique_usernames (users (db w1)))
  /\ (forall v, In v (users (db w)) -> In v (users (db w1))).
Proof.
  intros Hfresh. simpl.
  rewrite (onUserCreated_unfold env2), (onUserCreated_unfold env1).
  destruct (if truthy_field (msg_hashedPassword m) then msg_hashedPassword m
            else if truthy_field (msg_password m) then msg_password m
            else None) as [pw|].
  2:{ split; [reflexivity|]. split; [left; reflexivity|]. auto. }
  destruct (created_date env1 m) as [t1|] eqn:Hd1.
  2:{ rewrite (@created_date_invalid env1 env2 m Hd1).
      split; [reflexivity|]. split; [left; reflexivity|]. auto. }
  destruct (created_date env2 m) as [t2|] eqn:Hd2.
  2:{ apply (@created_date_invalid env2 env1 m) in Hd2. congruence. }
  cbv zeta.
  match goal with
  | |- context [user_insertable role_ok ?x (users (db w))] =>
      set (u1 := x); destruct (user_insertable role_ok u1 (users (db w))) eqn:H1
  end.
  - pose proof (@insertable_fresh u1 (users (db w)) H1) as Hnew.
    split; [|split; [|split; [|split]]].
    + simpl. rewrite insertable_after_insert; reflexivity.
    + right. exists u1. split; [reflexivity|]. split; [reflexivity|].
      split; [reflexivity | exact Hnew].
    + unfold unique_emails. simpl. rewrite map_app. simpl. intros Hu.
      apply NoDup_snoc; [assumption|]. rewrite in_map_iff.
      intros (v & Hv & Hin). destruct (Hnew v Hin) as (_ & He & _). auto.
    + unfold unique_usernames. simpl. rewrite map_app. simpl. intros Hu.
      apply NoDup_snoc; [assumption|]. rewrite in_map_iff.
      intros (v & Hv & Hin). destruct (Hnew v Hin) as (_ & _ & Hn). auto.
    + simpl. intros v Hv. apply in_or_app. left. assumption.
  - split; [|split; [left; reflexivity | auto]].
    erewrite (@not_insertable_replay u1); try reflexivity; assumption.
Qed.

End CreatedFacts.

(** C3 as the specification words it does not hold: the consumer is not
    an upsert. On a replica that already holds the email with another
    credential, an upsert from the payload overwrites the credential;
    the consumer leaves the row as it is. *)
Lemma onUserCreated_is_not_an_upsert :
  let existing := {| id := js "u1"; email := js "a@x.com"; username := js "a@x.com";
                     password := js "old-credential"; role := js "USER";
                     isActive := true; createdAt := 1000 |} in
  let w := {| db := {| users := [existing]; sessions := []; refreshTokens := [] |};
              outbox := [] |} in
  let m := {| msg_email := js "a@x.com"; msg_password := Some (js "new-credential");
              msg_hashedPassword := None; msg_role := js "USER";
              msg_isActive := true; msg_createdAt := None |} in
  let env := env_at 2000 "u2" "-" "-" "-" in
  onUserCreated (L := reference) env m w = w
  /\ map password (users (db (upsertUserCreated (L := reference) env m w)))
     = [js "new-credential"]
  /\ onUserCreated (L := reference) env m w
     <> upsertUserCreated (L := reference) env m w.
Proof.
  simpl. split; [reflexivity|]. split; [reflexivity|].
  intros H. apply (f_equal (fun x => map password (users (db x)))) in H.
  vm_compute in H. discriminate H.
Qed.

(** ** The reference libraries honour the contract of bcrypt *)

Lemma Forall_firstn {A : Type} (P : A -> Prop) (n : nat) (l : list A) :
  Forall P l -> Forall P (firstn n l).
Proof.
  revert l; induction n as [|n IH]; intros [|a l] H; simpl; try constructor.
  - inversion H; assumption.
  - apply IH. inversion H; assumption.
Qed.

Lemma fit_length (n : nat) (s : jsstring) : List.length (fit n s) = n.
Proof.
  unfold fit. rewrite length_firstn, length_app, length_map, repeat_length. lia.
Qed.

Lemma fit_no_line_terminator (n : nat) (s : jsstring) :
  Forall not_line_terminator (fit n s).
Proof.
  unfold fit. apply Forall_firstn, Forall_app. split.
  - apply Forall_forall. intros x Hx. apply in_map_iff in Hx.
    destruct Hx as (y & <- & _). unfold not_line_terminator.
    assert (Hlt : (y mod 26 < 26)%N) by (apply N.mod_lt; discriminate).
    revert Hlt. generalize (y mod 26)%N. intros k Hk. lia.
  - apply Forall_forall. intros x Hx. apply repeat_spec in Hx. subst.
    unfold not_line_terminator. lia.
Qed.

Lemma two_digits_are_digits (n : nat) : Forall is_digit (two_digits n).
Proof.
  unfold two_digits, is_digit.
  pose proof (Nat.mod_upper_bound (n / 10) 10).
  pose proof (Nat.mod_upper_bound n 10).
  repeat constructor; lia.
Qed.

Lemma ref_hash_length (plain : jsstring) (rounds : nat) (salt_ : jsstring) :
  List.length (ref_hash plain rounds salt_) = 60.
Proof.
  unfold ref_hash. rewrite !length_app, !fit_length. reflexivity.
Qed.

Lemma ref_hash_tail (plain : jsstring) (rounds : nat) (salt_ : jsstring) :
  skipn 29 (ref_hash plain rounds salt_) = fit 31 plain.
Proof.
  unfold ref_hash.
  set (head := js "$2b$" ++ two_digits rounds ++ js "$" ++ fit 22 salt_).
  assert (Hlen : List.length head = 29).
  { unfold head. rewrite !length_app, fit_length. reflexivity. }
  replace (js "$2b$" ++ two_digits rounds ++ js "$" ++ fit 22 salt_ ++ fit 31 plain)
    with (head ++ fit 31 plain)
    by (unfold head; rewrite <- !app_assoc; reflexivity).
  rewrite skipn_app, Hlen, Nat.sub_diag, skipn_all2 by lia. reflexivity.
Qed.

Lemma reference_contract : bcrypt_contract (L := reference).
Proof.
  unfold bcrypt_contract. cbn [bcrypt_hash bcrypt_compare reference].
  split; [|split].
  - intros plain rounds salt_. apply bcryptPattern_spec.
    exists (cu "b"), (two_digits rounds), (fit 22 salt_ ++ fit 31 plain).
    split; [reflexivity|]. split; [simpl; auto|]. split; [right; reflexivity|].
    split; [apply two_digits_are_digits|].
    split; [rewrite length_app, !fit_length; reflexivity|].
    apply Forall_app. split; apply fit_no_line_terminator.
  - intros plain rounds salt_. unfold ref_compare.
    rewrite ref_hash_length, ref_hash_tail, str_eqb_refl. reflexivity.
  - intros plain h Hlen. unfold ref_compare.
    apply Nat.eqb_neq in Hlen. rewrite Hlen. reflexivity.
Qed.

(** ** Stored credentials *)

Lemma find_snoc {A : Type} (p : A -> bool) (l : list A) (x : A) :
  (forall y, In y l -> p y = false) -> p x = true -> find p (l ++ [x]) = Some x.
Proof.
  induction l as [|a l IH]; simpl; intros Hl Hx.
  - rewrite Hx. reflexivity.
  - rewrite (Hl a) by auto. apply IH; auto.
Qed.


Section CredentialFacts.
Context {L : Library}.

Lemma hashed_is_adaptive (plain salt_ : jsstring) (rounds : nat) :
  bcrypt_contract ->
  stored_adaptively plain (bcrypt_hash plain rounds salt_).
Proof.
  intros (Hshape & Hsame & _). unfold stored_adaptively.
  pose proof (Hshape plain rounds salt_) as Hs.
  assert (Ha : AdaptiveShape (bcrypt_hash plain rounds salt_))
    by (apply bcryptPattern_spec; assumption).
  split; [constructor; assumption|].
  rewrite verifyPassword_adaptive by assumption.
  split; [reflexivity | apply Hsame].
Qed.

Lemma existsb_absent {A : Type} (p : A -> bool) (l : list A) :
  (forall x, In x l -> p x = false) -> existsb p l = false.
Proof.
  induction l as [|a l IH]; simpl; intros H; [reflexivity|].
  rewrite (H a) by auto. apply IH. auto.
Qed.

(** A registration with the three fields, a role of the schema, an email
    and a username nobody has, a fresh key and a fresh token value is
    answered with 201. *)
Lemma register_created (env : Env) (req : RegisterBody) (w : World) :
  truthy_field (reg_email req) = true ->
  truthy_field (reg_username req) = true ->
  truthy_field (reg_password req) = true ->
  role_ok (match reg_role req with Some r => r | None => js "USER" end) = true ->
  (forall u, In u (users (db w)) ->
             id u <> fresh_id env
             /\ email u <> field_value (reg_email req)
             /\ username u <> field_value (reg_username req)) ->
  (forall r, In r (refreshTokens (db w)) -> token r <> random_refresh env) ->
  status (fst (register env req w)) = 201%Z.
Proof.
  intros He Hu Hp Hrole Hnew Htok.
  unfold register, try_catch, bind, user_findFirst, user_create,
    refreshToken_create, publishEvent, ret.
  rewrite He, Hu, Hp. simpl.
  rewrite find_absent.
  2:{ intros u Hin. destruct (Hnew u Hin) as (_ & H1 & H2).
      apply str_eqb_neq in H1, H2. rewrite H1, H2. reflexivity. }
  unfold user_insertable. simpl. rewrite Hrole, existsb_absent.
  2:{ intros u Hin. destruct (Hnew u Hin) as (H0 & H1 & H2).
      apply str_eqb_neq in H0, H1, H2. rewrite H0, H1, H2. reflexivity. }
  simpl. unfold token_insertable. simpl. rewrite existsb_absent.
  - reflexivity.
  - intros r Hin. apply str_eqb_neq. apply Htok. assumption.
Qed.

(** A password change by a known user whose current password bcrypt
    accepts, with a new password of six characters or more, is answered
    with 200. *)
Lemma changePassword_updated
    (env : Env) (w : World) (user : User) (current new : jsstring) :
  truthy (id user) = true -> truthy current = true -> 6 <= List.length new ->
  unique_ids (users (db w)) -> In user (users (db w)) ->
  bcrypt_compare current (password user) = Val true ->
  status (fst (changePassword env (Some (id user))
                 {| currentPassword := Some current; newPassword := Some new |} w))
  = 200%Z.
Proof.
  intros Hid Hcur Hnew Hids Hin Hok.
  unfold changePassword, try_catch, bind, user_findUnique, user_findFirst,
    user_update, promise_all, session_deleteMany, refreshToken_deleteMany,
    publishEvent, await, ret. simpl.
  assert (Hn : truthy new = true) by (destruct new; [simpl in Hnew; lia | reflexivity]).
  rewrite Hid, Hcur, Hn. simpl.
  apply Nat.ltb_ge in Hnew. rewrite Hnew.
  rewrite (find_unique id _ user Hids Hin), Hok. simpl.
  rewrite (find_unique id _ user Hids Hin). reflexivity.
Qed.



(** C4 fails on the code: the password change checks the current
    password with [bcrypt.compare] alone. A credential in a legacy
    encoding, which the verifier of the login accepts, is answered
    with "Current password is incorrect" and nothing is updated. *)
Theorem changePassword_rejects_legacy_credential
    (env : Env) (w : World) (user : User) (e : Encoding) (current new : jsstring) :
  bcrypt_contract ->
  truthy (id user) = true -> truthy current = true -> 6 <= List.length new ->
  unique_ids (users (db w)) -> In user (users (db w)) ->
  encoding_of (password user) e -> e <> Adaptive ->
  List.length (password user) <> 60 ->
  correct_for e current (password user) ->
  verifyPassword current (password user) = Val true
  /\ changePassword env (Some (id user))
                    {| currentPassword := Some current; newPassword := Some new |} w
     = (json 400 (Error "Current password is incorrect"), w).
Proof.
  intros (_ & _ & Hlen60) Hid Hcur Hnew Hids Hin Henc Hlegacy Hlen Hok.
  split.
  - apply (verifyPassword_accepts _ Henc Hok).
  - unfold changePassword, try_catch, bind, user_findUnique, user_findFirst,
      await, ret. simpl.
    assert (Hn : truthy new = true) by (destruct new; [simpl in Hnew; lia | reflexivity]).
    rewrite Hid, Hcur, Hn. simpl.
    apply Nat.ltb_ge in Hnew. rewrite Hnew.
    rewrite (find_unique id _ user Hids Hin).
    rewrite (Hlen60 current (password user) Hlen). reflexivity.
Qed.

End CredentialFacts.

(** * The properties on the small replica *)

Ltac distinct := vm_compute; repeat constructor; simpl; intuition discriminate.

Ltac shaped :=
  first [ apply bcryptPattern_spec; vm_compute; reflexivity
        | apply hexPattern_spec; vm_compute; reflexivity
        | rewrite <- bcryptPattern_spec; vm_compute; discriminate
        | rewrite <- hexPattern_spec; vm_compute; discriminate ].

Lemma carol_is_legacy : encoding_of (password carol) LegacyDigest.
Proof. apply enc_legacy; shaped. Defined.

(** The digest of carol's credential is the legacy branch: her password
    is accepted, another one is answered false. *)
Lemma verifyPassword_by_encoding_witness :
  verifyPassword (L := reference) (js "letmein") (password carol) = Val true
  /\ verifyPassword (L := reference) (js "letmeout") (password carol) = Val false.
Proof.
  destruct (verifyPassword_by_encoding (L := reference)
              (js "letmein") carol_is_legacy) as (_ & Hyes & _).
  destruct (verifyPassword_by_encoding (L := reference)
              (js "letmeout") carol_is_legacy) as (_ & _ & Hno).
  split.
  - apply Hyes. reflexivity.
  - destruct Hno as [Hno | (He & _)]; [vm_compute; discriminate | exact Hno | discriminate He].
Defined.

Lemma unparsable_hash_shape : AdaptiveShape unparsable_hash.
Proof. shaped. Defined.

(** With a bcrypt that rejects a cost of 99, the verifier throws on
    the credential "$2b$99$" followed by 53 dots. *)
Lemma verifyPassword_throws_on_unparsable_hash_witness :
  encoding_of unparsable_hash Adaptive
  /\ ~ correct_for (L := strict_reference) Adaptive (js "guess") unparsable_hash
  /\ verifyPassword (L := strict_reference) (js "guess") unparsable_hash = Throw
  /\ verifyPassword (L := strict_reference) (js "guess") unparsable_hash <> Val false.
Proof.
  apply (@verifyPassword_throws_on_unparsable_hash strict_reference
           (js "guess") unparsable_hash).
  - exact unparsable_hash_shape.
  - reflexivity.
Defined.

(** Bob is inactive: his unexpired refresh token is refused as forbidden. *)
Lemma refresh_inactive_user_forbidden_witness :
  let (response, w') :=
    refreshToken (L := reference) (env_at 5000 "-" "-" "-" "-")
                 (Some (token bob_refresh)) replica in
  response = json 401 (Error "User account is inactive")
  /\ error_kind response = Some AUTH_FORBIDDEN
  /\ error_kind response <> Some AUTH_INVALID
  /\ mints_access_token response = false
  /\ w' = replica.
Proof.
  apply (@refresh_inactive_user_forbidden reference (env_at 5000 "-" "-" "-" "-")
           replica bob_refresh bob).
  - distinct.
  - distinct.
  - simpl. auto.
  - reflexivity.
  - simpl. lia.
  - simpl. auto.
  - reflexivity.
  - reflexivity.
Defined.

(** Carol's refresh token expired at 4000: at 5000 it is invalid. *)
Lemma refresh_unknown_or_expired_invalid_witness :
  let (response, w') :=
    refreshToken (L := reference) (env_at 5000 "-" "-" "-" "-")
                 (Some (js "r-carol")) replica in
  response = json 401 (Error "Invalid or expired refresh token")
  /\ error_kind response = Some AUTH_INVALID
  /\ mints_access_token response = false
  /\ w' = replica.
Proof.
  apply (@refresh_unknown_or_expired_invalid reference (env_at 5000 "-" "-" "-" "-")
           replica (js "r-carol")).
  - reflexivity.
  - distinct.
  - right. exists carol_refresh. split; [simpl; auto|]. split; [reflexivity|].
    simpl. lia.
Defined.

(** Erin is replicated with the credential "$2b$99$" followed by 53
    dots, stored as it came. Nobody answers to "mallory". With a bcrypt
    that rejects a cost of 99, the login for erin is answered 500 and
    the login for mallory 401. *)
Lemma login_reveals_account_with_unparsable_hash_witness :
  let w := onUserCreated (L := strict_reference) (env_at 4000 "u4" "-" "-" "-")
                         erin_created replica in
  let (r1, w1') :=
    login (L := strict_reference) (env_at 5000 "-" "-" "r1" "s1")
          {| login_emailOrUsername := Some (js "mallory");
             login_password := Some (js "guess") |} w in
  let (r2, w2') :=
    login (L := strict_reference) (env_at 6000 "-" "-" "r2" "s2")
          {| login_emailOrUsername := Some (js "erin@x.com");
             login_password := Some (js "guess") |} w in
  r1 <> r2
  /\ r1 = json 401 (Error "Invalid credentials")
  /\ r2 = json 500 (Error "Failed to login")
  /\ error_kind r1 = Some AUTH_INVALID
  /\ error_kind r2 = Some DEPENDENCY_FAILURE
  /\ w1' = w /\ w2' = w
  /\ (forall u, In u (users (db w)) -> isActive u = true ->
                email u = js "erin@x.com" \/ username u = js "erin@x.com" ->
                ~ correct_for (L := strict_reference) Adaptive (js "guess") (password u)).
Proof.
  intros w.
  apply (@login_reveals_account_with_unparsable_hash strict_reference
           (env_at 5000 "-" "-" "r1" "s1") (env_at 6000 "-" "-" "r2" "s2")
           w w (js "mallory") (js "guess") (js "erin@x.com") (js "guess"));
    try reflexivity.
  - intros u Hu _. vm_compute in Hu.
    destruct Hu as [<- | [<- | [<- | [<- | []]]]]; split; discriminate.
  - split.
    + eexists. split; [vm_compute; right; right; right; left; reflexivity|].
      split; [reflexivity|]. left. reflexivity.
    + intros u Hu Ha Hm. vm_compute in Hu.
      destruct Hu as [<- | [<- | [<- | [<- | []]]]];
        try discriminate Ha;
        try (vm_compute in Hm; destruct Hm; discriminate).
      split; [shaped | reflexivity].
Defined.

(** Nobody answers to "mallory"; alice exists and "guess" is not her
    password: the two logins are answered alike. *)
Lemma rejected_password_looks_like_unknown_account_witness :
  let (r1, w1') :=
    login (L := reference) (env_at 5000 "-" "-" "r1" "s1")
          {| login_emailOrUsername := Some (js "mallory");
             login_password := Some (js "guess") |} replica in
  let (r2, w2') :=
    login (L := reference) (env_at 6000 "-" "-" "r2" "s2")
          {| login_emailOrUsername := Some (js "alice");
             login_password := Some (js "guess") |} replica in
  r1 = r2
  /\ error_kind r1 = Some AUTH_INVALID
  /\ mints_access_token r1 = false
  /\ w1' = replica /\ w2' = replica.
Proof.
  apply (@rejected_password_looks_like_unknown_account reference
           (env_at 5000 "-" "-" "r1" "s1") (env_at 6000 "-" "-" "r2" "s2")
           replica replica (js "mallory") (js "guess") (js "alice") (js "guess"));
    try reflexivity.
  - intros u [<- | [<- | [<- | []]]] _; vm_compute; split; discriminate.
  - split.
    + exists alice. split; [simpl; auto|]. split; [reflexivity|].
      right. reflexivity.
    + intros u [<- | [<- | [<- | []]]] Ha Hm; try discriminate Ha;
        try reflexivity; vm_compute in Hm; destruct Hm; discriminate.
Defined.

(** Alice holds one session and one refresh token. *)
Lemma logout_then_logoutAll_witness :
  let (resp1, w1) :=
    logout (env_at 5000 "-" "-" "-" "-") (Some (js "u1"))
           {| logout_refreshToken := None;
              logout_sessionToken := Some (token alice_session) |} replica in
  let (resp2, w2) := logoutAll (env_at 6000 "-" "-" "-" "-") (Some (js "u1")) w1 in
  (resp1 = json 200 (Message "Logout successful")
   /\ (forall x, In x (sessions (db w1)) <->
                 In x (sessions (db replica)) /\ x <> alice_session)
   /\ List.length (rows_of (js "u1") (sessions (db w1))) = 0
   /\ refreshTokens (db w1) = refreshTokens (db replica)
   /\ List.length (rows_of (js "u1") (refreshTokens (db w1))) = 1
   /\ users (db w1) = users (db replica))
  /\ (resp2 = json 200 (Message "Logged out from all devices")
      /\ List.length (rows_of (js "u1") (sessions (db w2))) = 0
      /\ List.length (rows_of (js "u1") (refreshTokens (db w2))) = 0
      /\ (forall x, userId x <> js "u1" ->
                    (In x (sessions (db w2)) <-> In x (sessions (db w1)))
                    /\ (In x (refreshTokens (db w2)) <-> In x (refreshTokens (db w1))))
      /\ users (db w2) = users (db replica)).
Proof.
  apply (@logout_then_logoutAll (env_at 5000 "-" "-" "-" "-")
           (env_at 6000 "-" "-" "-" "-") (js "u1") replica
           alice_session alice_refresh).
  - reflexivity.
  - reflexivity.
  - distinct.
  - reflexivity.
  - reflexivity.
Defined.

(** A user.created event for dave, delivered twice. *)
Lemma onUserCreated_replay_witness :
  let m := {| msg_email := js "dave@x.com"; msg_password := Some (js "digest-of-dave");
              msg_hashedPassword := None; msg_role := js "USER";
              msg_isActive := true; msg_createdAt := Some (Millis 1300) |} in
  let w1 := onUserCreated (L := reference) (env_at 5000 "u4" "-" "-" "-") m replica in
  let w2 := onUserCreated (L := reference) (env_at 6000 "u5" "-" "-" "-") m w1 in
  w2 = w1
  /\ map email (users (db w1))
     = [js "alice@x.com"; js "bob@x.com"; js "carol@x.com"; js "dave@x.com"].
Proof.
  intros m.
  destruct (@onUserCreated_replay reference (env_at 5000 "u4" "-" "-" "-")
              (env_at 6000 "u5" "-" "-" "-") m replica) as (Hsame & _).
  - vm_compute. intuition discriminate.
  - split; [exact Hsame | reflexivity].
Defined.


(** Carol's credential is a legacy digest: her login password is the
    correct one, and the password change refuses it. *)
Lemma changePassword_rejects_legacy_credential_witness :
  verifyPassword (L := reference) (js "letmein") (password carol) = Val true
  /\ changePassword (L := reference) (env_at 7000 "-" "salt1" "-" "-") (Some (id carol))
                    {| currentPassword := Some (js "letmein");
                       newPassword := Some (js "correct horse") |} replica
     = (json 400 (Error "Current password is incorrect"), replica).
Proof.
  apply (@changePassword_rejects_legacy_credential reference
           (env_at 7000 "-" "salt1" "-" "-") replica carol LegacyDigest
           (js "letmein") (js "correct horse")).
  - exact reference_contract.
  - reflexivity.
  - reflexivity.
  - vm_compute. lia.
  - distinct.
  - simpl. auto.
  - exact carol_is_legacy.
  - discriminate.
  - vm_compute. discriminate.
  - reflexivity.
Defined.

(* ================================================================== *)
(** * Further properties of the service *)

Ltac branches :=
  repeat (cbv beta iota;
          match goal with
          | |- context [if ?c then _ else _] => destruct c eqn:?
          | |- context [match ?x with Some _ => _ | None => _ end] => destruct x eqn:?
          | |- context [match ?x with Val _ => _ | Throw => _ end] => destruct x eqn:?
          | |- context [let (_, _) := ?x in _] => destruct x eqn:?
          end).

Ltac handlers :=
  cbv [register login refreshToken logout logoutAll changePassword
       try_catch bind ret throw await promise_all
       user_findFirst user_findUnique user_create user_update
       refreshToken_create session_create refreshToken_findUnique
       refreshToken_deleteMany session_deleteMany publishEvent].

(** * What the handlers write *)

Section WriteFacts.
Context {L : Library}.

Lemma writes_weaken (w w' : World) : writes false w w' -> writes true w w'.
Proof.
  induction 1 as [|w1 w2 w3 _ IH Hw]; [constructor|].
  apply writes_then with w2; [assumption|].
  inversion Hw; subst; constructor; assumption.
Qed.

Lemma writes_any (k : bool) (w w' : World) : writes false w w' -> writes k w w'.
Proof. destruct k; [apply writes_weaken | auto]. Qed.

Ltac owner :=
  eexists; split;
  [ cbn [users db set_users set_sessions set_refreshTokens];
    first [ eassumption | apply in_or_app; right; left; reflexivity ]
  | reflexivity ].

Ltac one_write :=
  first [ apply write_event
        | apply delete_sessions
        | apply delete_refreshTokens
        | apply write_active
        | apply write_password
        | apply write_user; assumption
        | apply write_session; [ assumption | owner ]
        | apply write_refreshToken; [ assumption | owner ] ].

Ltac found :=
  repeat match goal with
         | H : find _ _ = Some _ |- _ => apply find_some in H; destruct H
         end.

Ltac all_writes :=
  cbn [snd fst];
  first [ apply writes_done
        | eapply writes_then; [ | one_write ]; [ all_writes ] ].

Lemma register_writes (env : Env) (req : RegisterBody) (w : World) :
  writes false w (snd (register env req w)).
Proof.
  cbv [register try_catch bind ret user_findFirst user_create refreshToken_create
       publishEvent].
  branches; all_writes.
Qed.

Lemma login_writes (env : Env) (req : LoginBody) (w : World) :
  writes false w (snd (login env req w)).
Proof.
  cbv [login try_catch bind ret await user_findFirst refreshToken_create
       session_create publishEvent].
  branches; found; all_writes.
Qed.

Lemma refreshToken_writes (env : Env) (tok : option jsstring) (w : World) :
  writes false w (snd (refreshToken env tok w)).
Proof.
  cbv [refreshToken try_catch bind ret throw refreshToken_findUnique publishEvent].
  branches; all_writes.
Qed.

Lemma logout_writes (env : Env) (user : option Id) (req : LogoutBody) (w : World) :
  writes false w (snd (logout env user req w)).
Proof.
  cbv [logout try_catch bind ret refreshToken_deleteMany session_deleteMany
       publishEvent].
  branches; all_writes.
Qed.

Lemma logoutAll_writes (env : Env) (user : option Id) (w : World) :
  writes false w (snd (logoutAll env user w)).
Proof.
  cbv [logoutAll try_catch bind ret promise_all refreshToken_deleteMany
       session_deleteMany publishEvent].
  branches; all_writes.
Qed.

Lemma changePassword_writes
    (env : Env) (user : option Id) (req : ChangePasswordBody) (w : World) :
  writes true w (snd (changePassword env user req w)).
Proof.
  cbv [changePassword try_catch bind ret await promise_all user_findUnique
       user_findFirst user_update refreshToken_deleteMany session_deleteMany
       publishEvent].
  branches; all_writes.
Qed.

Lemma onUserCreated_writes (env : Env) (m : UserCreated) (w : World) :
  writes false w (onUserCreated env m w).
Proof.
  cbv [onUserCreated try_catch bind ret throw user_create].
  branches; all_writes.
Qed.

Lemma onUserDeactivated_writes (uid : Id) (w : World) :
  writes false w (onUserDeactivated uid w).
Proof.
  cbv [onUserDeactivated try_catch bind ret promise_all user_update
       refreshToken_deleteMany session_deleteMany].
  branches; all_writes.
Qed.

Lemma onUserReactivated_writes (uid : Id) (w : World) :
  writes false w (onUserReactivated uid w).
Proof.
  cbv [onUserReactivated try_catch bind ret user_update].
  branches; all_writes.
Qed.

Lemma cleanupExpiredSessions_writes (env : Env) (w : World) :
  writes false w (snd (cleanupExpiredSessions env w)).
Proof.
  cbv [cleanupExpiredSessions bind ret refreshToken_deleteMany session_deleteMany
       publishEvent].
  all_writes.
Qed.

Lemma step_writes (op : Op) (w : World) :
  writes (changes_credential op) w (step op w).
Proof.
  destruct op; cbn [step changes_credential].
  - apply register_writes.
  - apply login_writes.
  - apply refreshToken_writes.
  - apply logout_writes.
  - apply logoutAll_writes.
  - apply changePassword_writes.
  - apply onUserCreated_writes.
  - apply onUserDeactivated_writes.
  - apply onUserReactivated_writes.
  - apply cleanupExpiredSessions_writes.
Qed.


(** ** Invariants of the store *)

Lemma unique_tokens_keep (where_ : TokenRow -> bool) (rows : list TokenRow) :
  unique_tokens rows -> unique_tokens (keep where_ rows).
Proof.
  unfold unique_tokens, keep.
  induction rows as [|r rows IH]; simpl; intros Hu; [constructor|].
  inversion Hu as [|t ts Hfresh Hrest]; subst.
  destruct (where_ r); simpl; [auto|]. constructor; [|auto].
  intros Hin. apply Hfresh. apply in_map_iff in Hin.
  destruct Hin as (x & Hx & Hin). apply filter_In in Hin.
  rewrite <- Hx. apply in_map. tauto.
Qed.

Lemma unique_tokens_insert (r : TokenRow) (l : list TokenRow) :
  token_insertable r l = true -> unique_tokens l -> unique_tokens (l ++ [r]).
Proof.
  unfold token_insertable, unique_tokens. rewrite negb_true_iff. intros Hfresh Hu.
  rewrite map_app. apply NoDup_snoc; [assumption|].
  intros Hin. apply in_map_iff in Hin. destruct Hin as (x & Hx & Hin).
  assert (existsb (fun x => str_eqb (token x) (token r)) l = true).
  { apply existsb_exists. exists x. split; [assumption|]. apply str_eqb_eq. assumption. }
  congruence.
Qed.

Lemma owned_more_users (us us' : list User) (l : list TokenRow) :
  (forall u, In u us -> exists v, In v us' /\ id v = id u) ->
  owned us l -> owned us' l.
Proof.
  intros Hus Ho r Hr. destruct (Ho r Hr) as (u & Hu & Hid).
  destruct (Hus u Hu) as (v & Hv & Hv'). exists v. split; congruence.
Qed.

Lemma owned_keep (us : list User) (where_ : TokenRow -> bool) (l : list TokenRow) :
  owned us l -> owned us (keep where_ l).
Proof. intros Ho r Hr. apply keep_In in Hr. apply Ho. tauto. Qed.

Lemma owned_insert (us : list User) (r : TokenRow) (l : list TokenRow) :
  (exists u, In u us /\ id u = userId r) -> owned us l -> owned us (l ++ [r]).
Proof.
  intros Hr Ho x Hx. apply in_app_or in Hx. destruct Hx as [Hx | [<- | []]]; auto.
Qed.

Lemma map_column_update {B : Type} (col : User -> B) (uid : Id) (g : User -> User)
    (l : list User) :
  (forall v, col (g v) = col v) ->
  map col (map (fun v => if str_eqb (id v) uid then g v else v) l) = map col l.
Proof.
  intros Hg. rewrite map_map. apply map_ext. intros v.
  destruct (str_eqb (id v) uid); auto.
Qed.

Lemma updated_user_In (uid : Id) (g : User -> User) (l : list User) (u : User) :
  In u l ->
  In (if str_eqb (id u) uid then g u else u)
     (map (fun v => if str_eqb (id v) uid then g v else v) l).
Proof. intros H. apply in_map_iff. exists u. auto. Qed.

Lemma write_consistent (k : bool) (w w' : World) :
  write k w w' -> consistent (db w) -> consistent (db w').
Proof.
  intros Hw [Hi He Hn Hs Hr Hso Hro].
  destruct Hw as [k u w Hins | uid pw w | k uid b w | k r w Hins Hown
                  | k r w Hins Hown | k p w | k p w | k e w];
    constructor; cbn [db users sessions refreshTokens set_users set_sessions
                      set_refreshTokens]; auto;
    try (unfold unique_ids, unique_emails, unique_usernames;
         rewrite map_column_update by reflexivity; assumption);
    try (apply unique_tokens_keep; assumption);
    try (apply unique_tokens_insert; assumption);
    try (apply owned_keep; assumption);
    try (apply owned_insert; assumption);
    try (eapply owned_more_users; [|eassumption];
         intros v Hv; eexists; split; [apply updated_user_In; eassumption|];
         destruct (str_eqb (id v) _); reflexivity).
  - unfold unique_ids. rewrite map_app. apply NoDup_snoc; [assumption|].
    intros Hin. apply in_map_iff in Hin. destruct Hin as (v & Hv & Hin).
    destruct (@insertable_fresh L u _ Hins v Hin) as (H & _). contradiction.
  - unfold unique_emails. rewrite map_app. apply NoDup_snoc; [assumption|].
    intros Hin. apply in_map_iff in Hin. destruct Hin as (v & Hv & Hin).
    destruct (@insertable_fresh L u _ Hins v Hin) as (_ & H & _). contradiction.
  - unfold unique_usernames. rewrite map_app. apply NoDup_snoc; [assumption|].
    intros Hin. apply in_map_iff in Hin. destruct Hin as (v & Hv & Hin).
    destruct (@insertable_fresh L u _ Hins v Hin) as (_ & _ & H). contradiction.
  - eapply owned_more_users; [|eassumption].
    intros v Hv. exists v. split; [apply in_or_app; auto | reflexivity].
  - eapply owned_more_users; [|eassumption].
    intros v Hv. exists v. split; [apply in_or_app; auto | reflexivity].
Qed.

Lemma writes_consistent (k : bool) (w w' : World) :
  writes k w w' -> consistent (db w) -> consistent (db w').
Proof.
  induction 1 as [|w1 w2 w3 _ IH Hw]; [auto|].
  intros H. eapply write_consistent; eauto.
Qed.

Lemma step_consistent (op : Op) (w : World) :
  consistent (db w) -> consistent (db (step op w)).
Proof. apply writes_consistent with (k := changes_credential op), step_writes. Qed.

(** X1. Every request, consumed event and sweep keeps the constraints of
    the data model: keys, emails, usernames and token values stay
    unique, and every Session and RefreshToken row still belongs to a
    user of the store. *)
Theorem step_keeps_consistency (op : Op) (w : World) :
  consistent (db w) -> consistent (db (step op w)).
Proof. apply step_consistent. Qed.

Lemma empty_world_consistent : consistent (db empty_world).
Proof.
  constructor; simpl; try constructor; intros r [].
Qed.

(** X2. Every store the service can reach from the empty one, by any
    sequence of requests, events and sweeps, is consistent. *)
Theorem reachable_stores_are_consistent (ops : list Op) :
  consistent (db (run ops empty_world)).
Proof.
  unfold run. generalize empty_world_consistent. generalize empty_world.
  induction ops as [|op ops IH]; simpl; intros w Hw; [assumption|].
  apply IH. apply step_consistent. assumption.
Qed.

Lemma same_account_refl (u : User) : same_account u u.
Proof. repeat split. Qed.

Lemma same_account_trans (u v x : User) :
  same_account u v -> same_account v x -> same_account u x.
Proof. unfold same_account. intuition congruence. Qed.

Lemma write_keeps_accounts (k : bool) (w w' : World) (u : User) :
  write k w w' -> In u (users (db w)) ->
  exists v, In v (users (db w')) /\ same_account u v
            /\ (k = false -> password v = password u).
Proof.
  intros Hw Hu.
  destruct Hw as [k u0 w Hins | uid pw w | k uid b w | k r w Hins Hown
                  | k r w Hins Hown | k p w | k p w | k e w];
    cbn [db users set_users set_sessions set_refreshTokens];
    try (exists u; split; [assumption | split; [apply same_account_refl | reflexivity]]).
  - exists u. split; [apply in_or_app; auto|].
    split; [apply same_account_refl | reflexivity].
  - eexists. split; [apply updated_user_In; eassumption|].
    destruct (str_eqb (id u) uid); (split; [repeat split | discriminate]).
  - eexists. split; [apply updated_user_In; eassumption|].
    destruct (str_eqb (id u) uid); (split; [repeat split | reflexivity]).
Qed.

Lemma writes_keep_accounts (k : bool) (w w' : World) (u : User) :
  writes k w w' -> In u (users (db w)) ->
  exists v, In v (users (db w')) /\ same_account u v
            /\ (k = false -> password v = password u).
Proof.
  induction 1 as [|w1 w2 w3 _ IH Hw]; intros Hu.
  - exists u. split; [assumption|]. split; [apply same_account_refl | reflexivity].
  - destruct (IH Hu) as (v & Hv & Hsame & Hpw).
    eapply write_keeps_accounts in Hw; [|exact Hv].
    destruct Hw as (x & Hx & Hsame' & Hpw').
    exists x. split; [assumption|]. split; [eapply same_account_trans; eauto|].
    intros Hk. rewrite Hpw', Hpw; auto.
Qed.

(** X3. No request, event or sweep removes a user or changes the key,
    email, username, role or creation time of one; and none but the
    password change overwrites a stored credential (a login never
    rehashes a legacy credential). *)
Theorem step_keeps_accounts (op : Op) (w : World) (u : User) :
  In u (users (db w)) ->
  exists v, In v (users (db (step op w))) /\ same_account u v
            /\ (changes_credential op = false -> password v = password u).
Proof. apply writes_keep_accounts, step_writes. Qed.

End WriteFacts.

(** ** What a request may change *)

Section AnswerFacts.
Context {L : Library}.

(** X4. A request answered with a client error (a 4xx status) changes
    neither the store nor the outbox. *)
Theorem client_errors_change_nothing (op : Op) (w : World) (r : Response) :
  answer op w = Some r -> (400 <= status r < 500)%Z -> step op w = w.
Proof.
  destruct op; cbn [answer step]; intros H; inversion H; subst r; clear H;
    handlers; branches; cbn [fst snd status json]; intros; try reflexivity; lia.
Qed.

(** X5. Each of the six requests that write to the store -- register,
    login, refresh, logout, logoutAll and changePassword -- publishes
    exactly one event when it is answered with 200 or 201, and nothing
    otherwise; what was published before stays. (GET /auth/me, which
    reads one user and publishes nothing, is not one of them.) *)
Theorem events_only_on_success (op : Op) (w : World) (r : Response) :
  answer op w = Some r ->
  ((status r < 400)%Z -> exists e, outbox (step op w) = outbox w ++ [e])
  /\ ((400 <= status r)%Z -> outbox (step op w) = outbox w).
Proof.
  destruct op; cbn [answer step]; intros H; inversion H; subst r; clear H;
    handlers; branches; cbn [fst snd status json]; split; intros;
    try lia; try reflexivity; eexists; reflexivity.
Qed.

End AnswerFacts.

(** ** Sessions and tokens *)

Section SessionFacts.
Context {L : Library}.

Lemma find_only {A : Type} (p : A -> bool) (l : list A) (x : A) :
  In x l -> p x = true -> (forall y, In y l -> p y = true -> y = x) ->
  find p l = Some x.
Proof.
  induction l as [|a l IH]; simpl; intros Hin Hp Honly; [contradiction|].
  destruct (p a) eqn:E.
  - f_equal. apply Honly; auto.
  - destruct Hin as [-> | Hin]; [congruence|]. apply IH; auto.
Qed.

Lemma token_fresh (r : TokenRow) (l : list TokenRow) :
  token_insertable r l = true <-> (forall x, In x l -> token x <> token r).
Proof.
  unfold token_insertable. rewrite negb_true_iff. split.
  - intros H x Hx Heq.
    assert (existsb (fun y => str_eqb (token y) (token r)) l = true).
    { apply existsb_exists. exists x. rewrite str_eqb_eq. auto. }
    congruence.
  - intros H. apply existsb_absent. intros x Hx. apply str_eqb_neq. auto.
Qed.

(** What a login answered with 200 found and wrote. *)
Lemma login_ok_inv (env : Env) (req : LoginBody) (w : World) :
  status (fst (login env req w)) = 200%Z ->
  let x := field_value (login_emailOrUsername req) in
  let pw := field_value (login_password req) in
  exists user,
    let refresh := {| userId := id user; token := random_refresh env;
                      expiresAt := now env + 7 * 24 * 60 * 60 * 1000 |} in
    let session := {| userId := id user; token := random_session env;
                      expiresAt := now env + 24 * 60 * 60 * 1000 |} in
    (In user (users (db w)) /\ isActive user = true
     /\ (email user = x \/ username user = x)
     /\ verifyPassword pw (password user) = Val true)
    /\ (token_insertable refresh (refreshTokens (db w)) = true
        /\ token_insertable session (sessions (db w)) = true)
    /\ login env req w
       = (json 200 (LoggedIn (view user) (jwt_sign (payload_of user) (now env))
                             (random_refresh env) (random_session env)),
          {| db := {| users := users (db w);
                      sessions := sessions (db w) ++ [session];
                      refreshTokens := refreshTokens (db w) ++ [refresh] |};
             outbox := outbox w ++ [UserLoggedIn (now env) (id user) (email user)
                                                 (random_session env)] |}).
Proof.
  handlers; branches; cbn [fst snd status json]; intros Hs; try discriminate Hs.
  match goal with H : find _ _ = Some ?u |- _ =>
    apply find_some in H; destruct H as [Hin Hp]; exists u end.
  apply andb_true_iff in Hp. destruct Hp as [Hm Ha].
  apply orb_true_iff in Hm. rewrite !str_eqb_eq in Hm.
  match goal with H : negb ?b = false |- _ => destruct b; [|discriminate H] end.
  repeat split; assumption || reflexivity.
Qed.

(** X6. A login is answered with 200 only for an active user who
    answers to the identifier and whose stored credential the verifier
    accepts; it then adds one refresh token valid for seven days and one
    session valid for twenty-four hours, both of that user, hands out
    exactly those two values, and touches no user. *)
Theorem login_success_means_verified (env : Env) (req : LoginBody) (w : World) :
  status (fst (login env req w)) = 200%Z ->
  let x := field_value (login_emailOrUsername req) in
  let pw := field_value (login_password req) in
  exists user,
    In user (users (db w)) /\ isActive user = true
    /\ (email user = x \/ username user = x)
    /\ verifyPassword pw (password user) = Val true
    /\ fst (login env req w)
       = json 200 (LoggedIn (view user) (jwt_sign (payload_of user) (now env))
                            (random_refresh env) (random_session env))
    /\ users (db (snd (login env req w))) = users (db w)
    /\ refreshTokens (db (snd (login env req w)))
       = refreshTokens (db w)
         ++ [{| userId := id user; token := random_refresh env;
                expiresAt := now env + 7 * 24 * 60 * 60 * 1000 |}]
    /\ sessions (db (snd (login env req w)))
       = sessions (db w)
         ++ [{| userId := id user; token := random_session env;
                expiresAt := now env + 24 * 60 * 60 * 1000 |}].
Proof.
  intros Hs. destruct (login_ok_inv env req w Hs) as (user & (Hin & Ha & Hm & Hv) & _ & Hrun).
  exists user. rewrite Hrun. repeat split; assumption.
Qed.

(** A login for the only active account that answers to the identifier,
    with a password the verifier accepts and two fresh token values, is
    answered with 200. *)
Lemma login_accepts (env : Env) (w : World) (x pw : jsstring) (user : User) :
  truthy x = true -> truthy pw = true ->
  In user (users (db w)) -> isActive user = true ->
  email user = x \/ username user = x ->
  (forall v, In v (users (db w)) -> isActive v = true ->
             email v = x \/ username v = x -> v = user) ->
  verifyPassword pw (password user) = Val true ->
  (forall r, In r (refreshTokens (db w)) -> token r <> random_refresh env) ->
  (forall r, In r (sessions (db w)) -> token r <> random_session env) ->
  status (fst (login env {| login_emailOrUsername := Some x;
                            login_password := Some pw |} w)) = 200%Z.
Proof.
  intros Hx Hpw Hin Ha Hm Honly Hv Hr Hs.
  handlers. cbn [login_emailOrUsername login_password truthy_field field_value].
  rewrite Hx, Hpw. cbn [negb orb].
  rewrite (@find_only _ _ _ user Hin).
  - rewrite Hv. cbn [negb].
    assert (H1 : token_insertable
                   {| userId := id user; token := random_refresh env;
                      expiresAt := now env + REFRESH_TOKEN_EXPIRES_IN |}
                   (refreshTokens (db w)) = true) by (apply token_fresh; exact Hr).
    rewrite H1.
    assert (H2 : token_insertable
                   {| userId := id user; token := random_session env;
                      expiresAt := now env + 24 * 60 * 60 * 1000 |}
                   (sessions (db w)) = true) by (apply token_fresh; exact Hs).
    cbn [sessions db set_refreshTokens]. rewrite H2. reflexivity.
  - rewrite Ha, andb_true_r. apply orb_true_iff. rewrite !str_eqb_eq. assumption.
  - intros v Hv' Hp. apply andb_true_iff in Hp. destruct Hp as [Hp Hav].
    apply orb_true_iff in Hp. rewrite !str_eqb_eq in Hp. auto.
Qed.

(** A refresh that finds the token, unexpired, and its active owner. *)
Lemma refresh_found (env : Env) (w : World) (row : TokenRow) (owner : User) :
  truthy (token row) = true ->
  find (fun r => str_eqb (token r) (token row)) (refreshTokens (db w)) = Some row ->
  find (fun u => str_eqb (id u) (userId row)) (users (db w)) = Some owner ->
  (now env <= expiresAt row)%Z ->
  isActive owner = true ->
  refreshToken env (Some (token row)) w
  = (json 200 (Refreshed (jwt_sign (payload_of owner) (now env))),
     {| db := db w;
        outbox := outbox w ++ [TokenRefreshed (now env) (id owner) (email owner)] |}).
Proof.
  intros Htruthy Hrow Howner Hfresh Hactive.
  handlers. cbn [truthy_field field_value]. rewrite Htruthy. cbn [negb].
  rewrite Hrow, Howner.
  apply Z.ltb_ge in Hfresh. rewrite Hfresh, Hactive. reflexivity.
Qed.

(** A stored, unexpired refresh token of an active owner is exchanged for
    an access token signed from the owner's row as it is now. *)
Lemma refresh_ok (env : Env) (w : World) (row : TokenRow) (owner : User) :
  unique_tokens (refreshTokens (db w)) ->
  unique_ids (users (db w)) ->
  In row (refreshTokens (db w)) ->
  truthy (token row) = true ->
  (now env <= expiresAt row)%Z ->
  In owner (users (db w)) ->
  id owner = userId row ->
  isActive owner = true ->
  refreshToken env (Some (token row)) w
  = (json 200 (Refreshed (jwt_sign (payload_of owner) (now env))),
     {| db := db w;
        outbox := outbox w ++ [TokenRefreshed (now env) (id owner) (email owner)] |}).
Proof.
  intros Htok Hids Hrow Htruthy Hfresh Howner Hid Hactive.
  apply refresh_found; try assumption.
  - apply (find_unique token _ row Htok Hrow).
  - rewrite <- Hid. apply (find_unique id _ owner Hids Howner).
Qed.

(** X7. A refresh with a stored refresh token that has not expired
    (expiry at or after now) and whose owner is active is answered with
    200 and an access token signed from the owner's current id, email
    and role; it publishes token.refreshed and writes nothing to the
    store: the refresh token is neither rotated nor extended. *)
Theorem refresh_mints_from_current_row
    (env : Env) (w : World) (row : TokenRow) (owner : User) :
  unique_tokens (refreshTokens (db w)) ->
  unique_ids (users (db w)) ->
  In row (refreshTokens (db w)) ->
  truthy (token row) = true ->
  (now env <= expiresAt row)%Z ->
  In owner (users (db w)) ->
  id owner = userId row ->
  isActive owner = true ->
  refreshToken env (Some (token row)) w
  = (json 200 (Refreshed (jwt_sign (payload_of owner) (now env))),
     {| db := db w;
        outbox := outbox w ++ [TokenRefreshed (now env) (id owner) (email owner)] |}).
Proof. apply refresh_ok. Qed.

(** X8. The refresh token handed out by a login is accepted by a
    refresh at any time up to seven days later, and the access token it
    yields is signed for the user who logged in: the active user who
    answers to the identifier of the login, whose credential the
    verifier accepted and whom the response of the login describes. *)
Theorem login_then_refresh (env env' : Env) (req : LoginBody) (w : World) :
  status (fst (login env req w)) = 200%Z ->
  unique_ids (users (db w)) ->
  truthy (random_refresh env) = true ->
  (now env' <= now env + 7 * 24 * 60 * 60 * 1000)%Z ->
  exists user,
    In user (users (db w)) /\ isActive user = true
    /\ (email user = field_value (login_emailOrUsername req)
        \/ username user = field_value (login_emailOrUsername req))
    /\ verifyPassword (field_value (login_password req)) (password user) = Val true
    /\ fst (login env req w)
       = json 200 (LoggedIn (view user) (jwt_sign (payload_of user) (now env))
                            (random_refresh env) (random_session env))
    /\ refreshToken env' (Some (random_refresh env)) (snd (login env req w))
       = (json 200 (Refreshed (jwt_sign (payload_of user) (now env'))),
          {| db := db (snd (login env req w));
             outbox := outbox (snd (login env req w))
                       ++ [TokenRefreshed (now env') (id user) (email user)] |}).
Proof.
  intros Hs Hids Htruthy Hnow.
  destruct (login_ok_inv env req w Hs)
    as (user & (Hin & Ha & Hm & Hv) & (Hfresh & _) & Hrun).
  exists user. cbv zeta in Hm, Hv.
  do 4 (split; [assumption|]).
  rewrite Hrun. cbn [fst snd]. split; [reflexivity|].
  set (row := {| userId := id user; token := random_refresh env;
                 expiresAt := now env + 7 * 24 * 60 * 60 * 1000 |}).
  change (random_refresh env) with (token row) at 1.
  rewrite (@refresh_found env' _ row user); try assumption; try reflexivity.
  - apply (@find_snoc _ _ (refreshTokens (db w)) row); [|apply str_eqb_refl].
    intros y Hy. apply str_eqb_neq. apply (proj1 (token_fresh _ _) Hfresh y Hy).
  - apply (find_unique id _ user Hids Hin).
Qed.

(** X9. After a logout that names a refresh token, a refresh with that
    token is answered as invalid, whoever asked for the logout. *)
Theorem logout_revokes_refresh_token
    (env env' : Env) (user : option Id) (tok : jsstring)
    (sessionToken : option jsstring) (w : World) :
  truthy tok = true ->
  let w1 := snd (logout env user {| logout_refreshToken := Some tok;
                                    logout_sessionToken := sessionToken |} w) in
  refreshToken env' (Some tok) w1
  = (json 401 (Error "Invalid or expired refresh token"), w1).
Proof.
  intros Htruthy. handlers.
  cbn [logout_refreshToken logout_sessionToken truthy_field field_value].
  rewrite Htruthy. cbn [negb].
  assert (Hgone : forall l, find (fun r => str_eqb (token r) tok)
                                 (keep (by_token tok) l) = None).
  { intros l. apply find_absent. intros x Hx. apply keep_In in Hx. apply Hx. }
  destruct (truthy_field sessionToken); cbn [snd refreshTokens db set_sessions
                                            set_refreshTokens];
    rewrite Hgone; reflexivity.
Qed.

(** X10. Registration is not atomic: when the user row is inserted and
    the refresh-token value then collides with a stored one, the answer
    is 500, the user row stays, nothing is published, and a new attempt
    with the same email is answered 400 as a duplicate. *)
Theorem register_keeps_user_when_token_collides
    (env env' : Env) (req : RegisterBody) (w : World) :
  truthy_field (reg_email req) = true ->
  truthy_field (reg_username req) = true ->
  truthy_field (reg_password req) = true ->
  role_ok (match reg_role req with Some r => r | None => js "USER" end) = true ->
  (forall u, In u (users (db w)) ->
             id u <> fresh_id env
             /\ email u <> field_value (reg_email req)
             /\ username u <> field_value (reg_username req)) ->
  (exists r, In r (refreshTokens (db w)) /\ token r = random_refresh env) ->
  let (response, w1) := register env req w in
  response = json 500 (Error "Failed to register user")
  /\ (exists u, users (db w1) = users (db w) ++ [u]
                /\ email u = field_value (reg_email req))
  /\ refreshTokens (db w1) = refreshTokens (db w)
  /\ outbox w1 = outbox w
  /\ register env' req w1
     = (json 400 (Error "User with this email or username already exists"), w1).
Proof.
  intros He Hu Hp Hrole Hnew (r & Hr & Htok).
  handlers. rewrite He, Hu, Hp. cbn [negb orb].
  rewrite find_absent.
  2:{ intros u Hin. destruct (Hnew u Hin) as (_ & H1 & H2).
      apply str_eqb_neq in H1, H2. rewrite H1, H2. reflexivity. }
  unfold user_insertable. cbn [role id email username]. rewrite Hrole, existsb_absent.
  2:{ intros u Hin. destruct (Hnew u Hin) as (H0 & H1 & H2).
      apply str_eqb_neq in H0, H1, H2. rewrite H0, H1, H2. reflexivity. }
  cbn [negb andb]. unfold token_insertable.
  cbn [token refreshTokens db set_users users].
  assert (Hdup : existsb (fun x => str_eqb (token x) (random_refresh env))
                         (refreshTokens (db w)) = true).
  { apply existsb_exists. exists r. split; [assumption|]. apply str_eqb_eq. assumption. }
  rewrite Hdup. cbn [negb].
  split; [reflexivity|]. split; [eexists; split; reflexivity|].
  split; [reflexivity|]. split; [reflexivity|].
  cbn [users db set_users]. rewrite find_snoc.
  - reflexivity.
  - intros u Hin. destruct (Hnew u Hin) as (_ & H1 & H2).
    apply str_eqb_neq in H1, H2. rewrite H1, H2. reflexivity.
  - cbn [email]. rewrite str_eqb_refl. reflexivity.
Qed.

End SessionFacts.

(** ** Password change *)

Section PasswordFacts.
Context {L : Library}.

(** The world after a password change that bcrypt lets through. *)
Lemma changePassword_ok
    (env : Env) (w : World) (user : User) (current new : jsstring) :
  truthy (id user) = true -> truthy current = true -> 6 <= List.length new ->
  unique_ids (users (db w)) -> In user (users (db w)) ->
  bcrypt_compare current (password user) = Val true ->
  changePassword env (Some (id user))
                 {| currentPassword := Some current; newPassword := Some new |} w
  = (json 200 (Message "Password changed successfully. Please login again."),
     {| db := {| users := map (fun v => if str_eqb (id v) (id user)
                                        then set_password (bcrypt_hash new 12 (salt env)) v
                                        else v) (users (db w));
                 sessions := keep (by_userId (id user)) (sessions (db w));
                 refreshTokens := keep (by_userId (id user)) (refreshTokens (db w)) |};
        outbox := outbox w ++ [UserPasswordChanged (now env) (id user) (email user)] |}).
Proof.
  intros Hid Hcur Hnew Hids Hin Hok.
  handlers. cbn [truthy_field field_value currentPassword newPassword].
  assert (Hn : truthy new = true) by (destruct new; [simpl in Hnew; lia | reflexivity]).
  rewrite Hid, Hcur, Hn. cbn [negb orb].
  apply Nat.ltb_ge in Hnew. rewrite Hnew.
  rewrite (find_unique id _ user Hids Hin), Hok. cbn [negb].
  rewrite (find_unique id _ user Hids Hin). reflexivity.
Qed.

(** X11. A successful password change replaces the credential of that
    user alone, deletes every Session and RefreshToken row of the user
    and none of anyone else, and leaves email, username, role and active
    flag of every user as they were. *)
Theorem changePassword_invalidates_sessions
    (env : Env) (w : World) (user : User) (current new : jsstring) :
  truthy (id user) = true -> truthy current = true -> 6 <= List.length new ->
  unique_ids (users (db w)) -> In user (users (db w)) ->
  bcrypt_compare current (password user) = Val true ->
  let (response, w') :=
    changePassword env (Some (id user))
                   {| currentPassword := Some current; newPassword := Some new |} w in
  status response = 200%Z
  /\ In (set_password (bcrypt_hash new 12 (salt env)) user) (users (db w'))
  /\ (forall v, In v (users (db w)) -> id v <> id user -> In v (users (db w')))
  /\ List.length (users (db w')) = List.length (users (db w))
  /\ rows_of (id user) (sessions (db w')) = []
  /\ rows_of (id user) (refreshTokens (db w')) = []
  /\ (forall r, userId r <> id user ->
                (In r (sessions (db w')) <-> In r (sessions (db w)))
                /\ (In r (refreshTokens (db w')) <-> In r (refreshTokens (db w)))).
Proof.
  intros Hid Hcur Hnew Hids Hin Hok.
  rewrite (@changePassword_ok env w user current new Hid Hcur Hnew Hids Hin Hok).
  cbn [db users sessions refreshTokens status json].
  split; [reflexivity|]. split; [|split; [|split; [|split; [|split]]]].
  - apply in_map_iff. exists user. rewrite str_eqb_refl. auto.
  - intros v Hv Hne. apply in_map_iff. exists v.
    apply str_eqb_neq in Hne. rewrite Hne. auto.
  - apply length_map.
  - apply rows_of_keep.
  - apply rows_of_keep.
  - intros r Hr. split; apply keep_other_user; assumption.
Qed.

(** X12. The password change does not ask whether the user is active:
    it succeeds for any stored user whose current password bcrypt
    accepts. After it the user's earlier refresh tokens are refused as
    invalid. Where no other active account answers to the user's email
    and the two token values the login draws are not in use, a login
    with the email and the new password is then answered with 200 if
    the user is active, and with 401 "Invalid credentials" if the user
    is not. *)
Theorem changePassword_then_login
    (env env1 env2 : Env) (w : World) (user : User) (current new : jsstring) :
  bcrypt_contract ->
  truthy (id user) = true -> truthy current = true -> 6 <= List.length new ->
  unique_ids (users (db w)) -> In user (users (db w)) ->
  bcrypt_compare current (password user) = Val true ->
  truthy (email user) = true ->
  (forall v, In v (users (db w)) -> isActive v = true ->
             email v = email user \/ username v = email user -> v = user) ->
  unique_tokens (refreshTokens (db w)) ->
  (forall r, In r (refreshTokens (db w)) -> token r <> random_refresh env2) ->
  (forall r, In r (sessions (db w)) -> token r <> random_session env2) ->
  let w' := snd (changePassword env (Some (id user))
                   {| currentPassword := Some current; newPassword := Some new |} w) in
  status (fst (changePassword env (Some (id user))
                 {| currentPassword := Some current; newPassword := Some new |} w))
  = 200%Z
  /\ (forall old, In old (refreshTokens (db w)) -> userId old = id user ->
                  truthy (token old) = true ->
                  refreshToken env1 (Some (token old)) w'
                  = (json 401 (Error "Invalid or expired refresh token"), w'))
  /\ (isActive user = true ->
      status (fst (login env2 {| login_emailOrUsername := Some (email user);
                                 login_password := Some new |} w')) = 200%Z)
  /\ (isActive user = false ->
      login env2 {| login_emailOrUsername := Some (email user);
                    login_password := Some new |} w'
      = (json 401 (Error "Invalid credentials"), w')).
Proof.
  intros Hc Hid Hcur Hnew Hids Hin Hok Hmail Honly Huniq Hr Hs.
  rewrite (@changePassword_ok env w user current new Hid Hcur Hnew Hids Hin Hok).
  cbn [fst snd]. split; [reflexivity|].
  assert (Hn : truthy new = true) by (destruct new; [simpl in Hnew; lia | reflexivity]).
  split; [intros old Hold Hown Htok | split; [intros Hact | intros Hact]].
  3:{ apply login_unknown_account; [assumption | assumption |].
      intros v Hv Ha. cbn [db users] in Hv.
      apply in_map_iff in Hv. destruct Hv as (v0 & <- & Hv0).
      assert (Hsame : forall v1, isActive (if str_eqb (id v0) (id user)
                                           then set_password v1 v0 else v0)
                                 = isActive v0
                                 /\ email (if str_eqb (id v0) (id user)
                                           then set_password v1 v0 else v0)
                                    = email v0
                                 /\ username (if str_eqb (id v0) (id user)
                                              then set_password v1 v0 else v0)
                                    = username v0).
      { intros v1. destruct (str_eqb (id v0) (id user)); repeat split. }
      destruct (Hsame (bcrypt_hash new 12 (salt env))) as (Ea & Ee & Eu).
      rewrite Ea in Ha. rewrite Ee, Eu.
      split; intros Hm;
        (assert (v0 = user) by (apply Honly; auto)); subst v0; congruence. }
  - handlers. cbn [truthy_field field_value refreshTokens db]. rewrite Htok.
    cbn [negb]. rewrite find_absent; [reflexivity|].
    intros x Hx. apply keep_In in Hx. destruct Hx as [Hx Hkept].
    apply str_eqb_neq. intros Heq.
    assert (x = old) by (eapply unique_tokens_inj; eassumption). subst x.
    unfold by_userId in Hkept. rewrite Hown, str_eqb_refl in Hkept. discriminate.
  - apply login_accepts
      with (user := set_password (bcrypt_hash new 12 (salt env)) user);
      cbn [db users sessions refreshTokens set_password isActive email username
           password]; auto.
    + apply in_map_iff. exists user. rewrite str_eqb_refl. auto.
    + intros v Hv Ha Hm. apply in_map_iff in Hv. destruct Hv as (v0 & <- & Hv0).
      destruct (str_eqb (id v0) (id user)) eqn:E.
      * assert (v0 = user) by (apply Honly; auto). subst v0. reflexivity.
      * assert (v0 = user) by (apply Honly; auto). subst v0.
        rewrite str_eqb_refl in E. discriminate.
    + destruct (hashed_is_adaptive new (salt env) 12 Hc) as (_ & _ & H). exact H.
    + intros r Hin'. apply keep_In in Hin'. apply Hr. tauto.
    + intros r Hin'. apply keep_In in Hin'. apply Hs. tauto.
Qed.

End PasswordFacts.

(** ** The replica and the verifier *)

Section ReplicaFacts.
Context {L : Library}.

Lemma onUserReactivated_db (uid : Id) (w : World) :
  onUserReactivated uid w =
  {| db := {| users := map (fun v => if str_eqb (id v) uid
                                     then set_isActive true v else v)
                           (users (db w));
              sessions := sessions (db w);
              refreshTokens := refreshTokens (db w) |};
     outbox := outbox w |}.
Proof.
  unfold onUserReactivated, try_catch, bind, user_update, ret.
  destruct (find (fun u => str_eqb (id u) uid) (users (db w))) eqn:Hfind; simpl.
  - reflexivity.
  - assert (Hsame : map (fun v => if str_eqb (id v) uid
                                  then set_isActive true v else v) (users (db w))
                    = users (db w)).
    { rewrite <- (map_id (users (db w))) at 2. apply map_ext_in.
      intros v Hv. destruct (str_eqb (id v) uid) eqn:E; [|reflexivity].
      exfalso. apply (find_none _ _ Hfind) in Hv. congruence. }
    rewrite Hsame. destruct w as [[us ss rs] ob]. reflexivity.
Qed.

(** X13. Once user.deactivated has been applied, a login for an
    identifier that only the deactivated user answers to is refused like
    an unknown account, and a refresh with any of the user's earlier
    refresh tokens is refused as invalid. *)
Theorem deactivated_user_is_locked_out
    (env env' : Env) (uid : Id) (w : World) (x pw : jsstring) (row : TokenRow) :
  truthy x = true -> truthy pw = true ->
  (forall u, In u (users (db w)) -> email u = x \/ username u = x -> id u = uid) ->
  unique_tokens (refreshTokens (db w)) ->
  In row (refreshTokens (db w)) -> userId row = uid -> truthy (token row) = true ->
  let w1 := onUserDeactivated uid w in
  login env {| login_emailOrUsername := Some x; login_password := Some pw |} w1
  = (json 401 (Error "Invalid credentials"), w1)
  /\ refreshToken env' (Some (token row)) w1
     = (json 401 (Error "Invalid or expired refresh token"), w1).
Proof.
  intros Hx Hpw Honly Huniq Hrow Hown Htok. cbv zeta.
  rewrite onUserDeactivated_db. split.
  - apply login_unknown_account; [assumption | assumption |].
    intros u Hu Ha. cbn [db users] in Hu. apply in_map_iff in Hu.
    destruct Hu as (v & <- & Hv). destruct (str_eqb (id v) uid) eqn:E.
    + discriminate Ha.
    + apply str_eqb_neq in E. split; intros Hm; apply E, Honly; auto.
  - unfold refreshToken, try_catch, bind, refreshToken_findUnique, ret.
    cbn [truthy_field field_value refreshTokens db]. rewrite Htok. cbn [negb].
    rewrite find_absent; [reflexivity|].
    intros r Hr. apply keep_In in Hr. destruct Hr as [Hr Hkept].
    apply str_eqb_neq. intros Heq.
    assert (r = row) by (eapply unique_tokens_inj; eassumption). subst r.
    unfold by_userId in Hkept. rewrite Hown, str_eqb_refl in Hkept. discriminate.
Qed.

Lemma map_reactivate_deactivate (uid : Id) (l : list User) :
  map (fun v => if str_eqb (id v) uid then set_isActive true v else v)
      (map (fun v => if str_eqb (id v) uid then set_isActive false v else v) l)
  = map (fun v => if str_eqb (id v) uid then set_isActive true v else v) l.
Proof.
  rewrite map_map. apply map_ext. intros v.
  destruct (str_eqb (id v) uid) eqn:E; simpl; rewrite E; reflexivity.
Qed.

(** X14. A user.reactivated event after a user.deactivated one makes the
    user active again and restores none of the deleted sessions and
    refresh tokens; if the user was active before, the users are as they
    were at the start. Applying the reactivation again changes nothing. *)
Theorem reactivation_restores_no_tokens (uid : Id) (w : World) :
  let w2 := onUserReactivated uid (onUserDeactivated uid w) in
  (forall u, In u (users (db w2)) -> id u = uid -> isActive u = true)
  /\ rows_of uid (sessions (db w2)) = []
  /\ rows_of uid (refreshTokens (db w2)) = []
  /\ ((forall u, In u (users (db w)) -> id u = uid -> isActive u = true) ->
      users (db w2) = users (db w))
  /\ onUserReactivated uid w2 = w2.
Proof.
  cbv zeta. rewrite !onUserReactivated_db, onUserDeactivated_db.
  cbn [db users sessions refreshTokens outbox].
  rewrite map_reactivate_deactivate.
  split; [|split; [|split; [|split]]].
  - intros u Hu Hid. apply in_map_iff in Hu. destruct Hu as (v & <- & _).
    destruct (str_eqb (id v) uid) eqn:E; [reflexivity|].
    apply str_eqb_neq in E. contradiction.
  - apply rows_of_keep.
  - apply rows_of_keep.
  - intros Hact. rewrite <- (map_id (users (db w))) at 2. apply map_ext_in.
    intros v Hv. destruct (str_eqb (id v) uid) eqn:E; [|reflexivity].
    apply str_eqb_eq in E. specialize (Hact v Hv E).
    destruct v; simpl in *. subst. reflexivity.
  - do 2 f_equal. rewrite map_map. apply map_ext. intros v.
    destruct (str_eqb (id v) uid) eqn:E; simpl; rewrite E; reflexivity.
Qed.

(** X15. The two events do not commute: whichever of user.deactivated
    and user.reactivated is applied last decides the active flag, so for
    a user of the store the two orders end in different stores. *)
Theorem deactivation_and_reactivation_do_not_commute (uid : Id) (w : World) :
  (exists u, In u (users (db w)) /\ id u = uid) ->
  (forall u, In u (users (db (onUserDeactivated uid (onUserReactivated uid w)))) ->
             id u = uid -> isActive u = false)
  /\ (forall u, In u (users (db (onUserReactivated uid (onUserDeactivated uid w)))) ->
                id u = uid -> isActive u = true)
  /\ onUserDeactivated uid (onUserReactivated uid w)
     <> onUserReactivated uid (onUserDeactivated uid w).
Proof.
  intros (u0 & Hu0 & Hid0).
  assert (Hoff : forall u,
             In u (users (db (onUserDeactivated uid (onUserReactivated uid w)))) ->
             id u = uid -> isActive u = false).
  { rewrite onUserDeactivated_db. cbn [db users]. intros u Hu Hid.
    apply in_map_iff in Hu. destruct Hu as (v & <- & _).
    destruct (str_eqb (id v) uid) eqn:E; [reflexivity|].
    apply str_eqb_neq in E. contradiction. }
  assert (Hon : forall u,
             In u (users (db (onUserReactivated uid (onUserDeactivated uid w)))) ->
             id u = uid -> isActive u = true).
  { rewrite onUserReactivated_db. cbn [db users]. intros u Hu Hid.
    apply in_map_iff in Hu. destruct Hu as (v & <- & _).
    destruct (str_eqb (id v) uid) eqn:E; [reflexivity|].
    apply str_eqb_neq in E. contradiction. }
  split; [exact Hoff|]. split; [exact Hon|].
  intros Heq. rewrite Heq in Hoff.
  assert (Hin : In (set_isActive true u0)
                   (users (db (onUserReactivated uid (onUserDeactivated uid w))))).
  { rewrite onUserReactivated_db, onUserDeactivated_db. cbn [db users].
    rewrite map_reactivate_deactivate. apply in_map_iff. exists u0.
    rewrite Hid0, str_eqb_refl. auto. }
  specialize (Hoff _ Hin Hid0). specialize (Hon _ Hin Hid0). congruence.
Qed.

Lemma digest_is_legacy (pw : jsstring) :
  sha256_contract -> encoding_of (sha256_hex pw) LegacyDigest.
Proof.
  intros Hc. destruct (Hc pw) as [Hlen Hall].
  assert (Hhex : HexDigest64 (sha256_hex pw)).
  { split; [assumption|]. eapply Forall_impl; [|exact Hall].
    intros c [H | H]; unfold is_hex; [left | right; right]; exact H. }
  apply enc_legacy; [|exact Hhex].
  intros Ha. exact (adaptive_not_hex Ha Hhex).
Qed.

(** A createdAt that makes an Invalid Date -- a number beyond the range
    of a Date, a string that does not parse -- stores nothing. *)
Lemma onUserCreated_invalid_date (env : Env) (m : UserCreated) (w : World) :
  created_date env m = None -> onUserCreated env m w = w.
Proof.
  intros Hd. rewrite onUserCreated_unfold, Hd.
  destruct (if truthy_field (msg_hashedPassword m) then msg_hashedPassword m
            else if truthy_field (msg_password m) then msg_password m
            else None); reflexivity.
Qed.

Lemma new_Date_out_of_range (ms : Z) :
  (MAX_TIME < Z.abs ms)%Z -> new_Date (Millis ms) = None.
Proof.
  intros H. unfold new_Date, time_clip.
  destruct (Z.leb_spec (Z.abs ms) MAX_TIME); [lia | reflexivity].
Qed.

(** X16. A user replicated by user.created with the SHA-256 digest of
    the password as credential (in either field) and a createdAt that
    is absent, falsy or a valid date can log in with that password and
    the email, through the legacy branch of the verifier. (With a
    createdAt that makes an Invalid Date no row is stored.) *)
Theorem replicated_user_logs_in_with_digest
    (env env' : Env) (m : UserCreated) (w : World) (pw : jsstring) :
  sha256_contract ->
  msg_hashedPassword m = Some (sha256_hex pw)
  \/ (truthy_field (msg_hashedPassword m) = false
      /\ msg_password m = Some (sha256_hex pw)) ->
  msg_isActive m = true -> role_ok (msg_role m) = true ->
  truthy (msg_email m) = true -> truthy pw = true ->
  created_date env m <> None ->
  (forall u, In u (users (db w)) ->
             id u <> fresh_id env /\ email u <> msg_email m
             /\ username u <> msg_email m) ->
  (forall r, In r (refreshTokens (db w)) -> token r <> random_refresh env') ->
  (forall r, In r (sessions (db w)) -> token r <> random_session env') ->
  status (fst (login env' {| login_emailOrUsername := Some (msg_email m);
                             login_password := Some pw |}
                     (onUserCreated env m w))) = 200%Z.
Proof.
  intros Hc Hcred Hact Hrole Hmail Hpw Hdate Hnew Hr Hs.
  assert (Hlen : truthy (sha256_hex pw) = true).
  { destruct (Hc pw) as [Hlen _]. destruct (sha256_hex pw); [discriminate Hlen | reflexivity]. }
  rewrite onUserCreated_unfold.
  assert (Hchoice : (if truthy_field (msg_hashedPassword m) then msg_hashedPassword m
                     else if truthy_field (msg_password m) then msg_password m
                     else None) = Some (sha256_hex pw)).
  { destruct Hcred as [-> | [Hno ->]].
    - cbn [truthy_field]. rewrite Hlen. reflexivity.
    - rewrite Hno. cbn [truthy_field]. rewrite Hlen. reflexivity. }
  rewrite Hchoice.
  destruct (created_date env m) as [t|]; [clear Hdate | contradiction].
  cbv zeta.
  match goal with
  | |- context [user_insertable role_ok ?x (users (db w))] => set (u := x)
  end.
  assert (Hins : user_insertable role_ok u (users (db w)) = true).
  { unfold user_insertable. cbn [role u]. rewrite Hrole, existsb_absent; [reflexivity|].
    intros v Hv. destruct (Hnew v Hv) as (H0 & H1 & H2).
    apply str_eqb_neq in H0, H1, H2. cbn [id email username u].
    rewrite H0, H1, H2. reflexivity. }
  rewrite Hins.
  apply login_accepts with (user := u); cbn [db users sessions refreshTokens set_users];
    auto.
  - apply in_or_app. right. left. reflexivity.
  - intros v Hv _ Hm. apply in_app_or in Hv. destruct Hv as [Hv | [<- | []]]; [|reflexivity].
    destruct (Hnew v Hv) as (_ & H1 & H2). destruct Hm; contradiction.
  - apply verifyPassword_accepts with (e := LegacyDigest).
    + apply digest_is_legacy. assumption.
    + reflexivity.
Qed.

(** X17. The consumer stores the credential of the event as it came: a
    row it inserts carries the non-empty hashedPassword, else the
    non-empty password, unchanged, with the email also as username; with
    neither field (or both empty) nothing is stored at all. *)
Theorem onUserCreated_stores_credential_verbatim
    (env : Env) (m : UserCreated) (w : World) :
  (forall u, In u (users (db (onUserCreated env m w))) -> ~ In u (users (db w)) ->
             Some (password u)
             = (if truthy_field (msg_hashedPassword m) then msg_hashedPassword m
                else msg_password m)
             /\ id u = fresh_id env /\ email u = msg_email m
             /\ username u = msg_email m /\ role u = msg_role m
             /\ isActive u = msg_isActive m)
  /\ (truthy_field (msg_hashedPassword m) = false ->
      truthy_field (msg_password m) = false ->
      onUserCreated env m w = w).
Proof.
  rewrite onUserCreated_unfold. split.
  - intros u Hu Hnew.
    destruct (truthy_field (msg_hashedPassword m)) eqn:Hh;
      [|destruct (truthy_field (msg_password m)) eqn:Hp; [|contradiction]].
    + destruct (msg_hashedPassword m) as [h|]; [|discriminate Hh].
      destruct (created_date env m) as [t|]; [|contradiction].
      cbv zeta in Hu. destruct (user_insertable _ _ _); [|contradiction].
      cbn [db users set_users] in Hu. apply in_app_or in Hu.
      destruct Hu as [Hu | [<- | []]]; [contradiction|]. repeat split.
    + destruct (msg_password m) as [p|]; [|discriminate Hp].
      destruct (created_date env m) as [t|]; [|contradiction].
      cbv zeta in Hu. destruct (user_insertable _ _ _); [|contradiction].
      cbn [db users set_users] in Hu. apply in_app_or in Hu.
      destruct Hu as [Hu | [<- | []]]; [contradiction|]. repeat split.
  - intros -> ->. reflexivity.
Qed.

(** X18. The bcrypt pattern also admits a one-digit cost; such a stored
    credential has 59 characters, is sent to bcrypt and -- as bcrypt
    compares nothing but 60-character hashes -- verifies no password. *)
Theorem one_digit_cost_verifies_nothing
    (plain : jsstring) (v c : code_unit) (rest : jsstring) :
  bcrypt_contract ->
  In v (js "aby") -> is_digit c -> List.length rest = 53 ->
  Forall not_line_terminator rest ->
  let stored := js "$2" ++ v :: js "$" ++ [c] ++ js "$" ++ rest in
  encoding_of stored Adaptive /\ verifyPassword plain stored = Val false.
Proof.
  intros (_ & _ & Hlen) Hv Hc Hrest Hdot stored.
  assert (Ha : AdaptiveShape stored).
  { exists v, [c], rest. repeat split; auto. }
  split; [constructor; exact Ha|].
  rewrite (verifyPassword_adaptive plain Ha). apply Hlen.
  unfold stored. cbn [js map list_ascii_of_string app List.length]. rewrite Hrest. lia.
Qed.

(** X19. The shape test for a legacy digest ignores case, the comparison
    with the digest does not: a stored 64-digit hexadecimal credential
    with an uppercase digit is treated as a digest and verifies no
    password, because SHA-256 digests come in lowercase. *)
Theorem uppercase_digest_verifies_nothing (plain stored : jsstring) (c : code_unit) :
  sha256_contract ->
  HexDigest64 stored -> In c stored -> (65 <= c <= 70)%N ->
  encoding_of stored LegacyDigest /\ verifyPassword plain stored = Val false.
Proof.
  intros Hc Hhex Hin Hupper.
  assert (Hn : ~ AdaptiveShape stored) by (intros Ha; exact (adaptive_not_hex Ha Hhex)).
  split; [apply enc_legacy; assumption|].
  rewrite (verifyPassword_legacy plain Hn Hhex). f_equal.
  apply str_eqb_neq. intros Heq.
  destruct (Hc plain) as [_ Hall]. rewrite Heq in Hall.
  rewrite Forall_forall in Hall. specialize (Hall c Hin).
  unfold lower_hex in Hall. lia.
Qed.

End ReplicaFacts.

(** ** The bearer header *)

Lemma split_on_no_separator (sep : code_unit) (s : jsstring) :
  ~ In sep s -> split_on sep s = [s].
Proof.
  induction s as [|c s IH]; simpl; intros H; [reflexivity|].
  destruct (N.eqb c sep) eqn:E.
  - apply N.eqb_eq in E. exfalso. apply H. left. assumption.
  - rewrite IH by (intros Hin; apply H; right; assumption). reflexivity.
Qed.

Lemma split_on_first (sep : code_unit) (a b : jsstring) :
  ~ In sep a -> split_on sep (a ++ sep :: b) = a :: split_on sep b.
Proof.
  induction a as [|c a IH]; simpl; intros H.
  - rewrite N.eqb_refl. reflexivity.
  - destruct (N.eqb c sep) eqn:E.
    + apply N.eqb_eq in E. exfalso. apply H. left. assumption.
    + rewrite IH by (intros Hin; apply H; right; assumption). reflexivity.
Qed.

Section BearerFacts.
Variable jwt_verify : jsstring -> Z -> Outcome Decoded.

Lemma authenticateToken_second_field (now_ : Z) (scheme tok tail : jsstring) :
  ~ In 32%N scheme -> ~ In 32%N tok -> truthy tok = true ->
  tail = [] \/ (exists rest, tail = 32%N :: rest) ->
  authenticateToken jwt_verify now_ (Some (scheme ++ 32%N :: tok ++ tail))
  = match jwt_verify tok now_ with
    | Val decoded => Next decoded
    | Throw => Rejected (json 403 (Error "Invalid or expired token"))
    end.
Proof.
  intros Hscheme Htok Htruthy Htail. unfold authenticateToken.
  assert (Hheader : truthy (scheme ++ 32%N :: tok ++ tail) = true)
    by (destruct scheme; reflexivity).
  rewrite Hheader, split_on_first by assumption.
  assert (Hsecond : exists l, split_on 32%N (tok ++ tail) = tok :: l).
  { destruct Htail as [-> | (rest & ->)].
    - rewrite app_nil_r, split_on_no_separator by assumption. eauto.
    - rewrite split_on_first by assumption. eauto. }
  destruct Hsecond as (l & ->). cbn [nth_error truthy_field field_value].
  rewrite Htruthy. reflexivity.
Qed.

(** X20. The token the middleware verifies is the text between the first
    and the second space of the Authorization header: the scheme in
    front of it is not looked at, and anything after a second space is
    dropped. *)
Theorem authenticateToken_takes_second_field
    (now_ : Z) (scheme tok tail : jsstring) :
  ~ In 32%N scheme -> ~ In 32%N tok -> truthy tok = true ->
  tail = [] \/ (exists rest, tail = 32%N :: rest) ->
  authenticateToken jwt_verify now_ (Some (scheme ++ 32%N :: tok ++ tail))
  = match jwt_verify tok now_ with
    | Val decoded => Next decoded
    | Throw => Rejected (json 403 (Error "Invalid or expired token"))
    end.
Proof. apply authenticateToken_second_field. Qed.

(** X21. Without a header, with an empty one, with one that has no
    space, or with one whose second field is empty (a trailing space or
    two spaces in a row), the middleware answers 401 and never consults
    the verifier. *)
Theorem authenticateToken_requires_second_field
    (now_ : Z) (authorization : option jsstring) :
  authorization = None
  \/ (exists s, authorization = Some s /\ ~ In 32%N s)
  \/ (exists scheme, authorization = Some (scheme ++ [32%N]) /\ ~ In 32%N scheme)
  \/ (exists scheme rest, authorization = Some (scheme ++ 32%N :: 32%N :: rest)
                          /\ ~ In 32%N scheme) ->
  authenticateToken jwt_verify now_ authorization
  = Rejected (json 401 (Error "Access token required")).
Proof.
  unfold authenticateToken.
  intros [-> | [(s & -> & Hs) | [(scheme & -> & Hs) | (scheme & rest & -> & Hs)]]].
  - reflexivity.
  - destruct (truthy s) eqn:E.
    + rewrite split_on_no_separator by assumption. reflexivity.
    + cbn [truthy_field]. rewrite E. reflexivity.
  - assert (Hheader : truthy (scheme ++ [32%N]) = true) by (destruct scheme; reflexivity).
    rewrite Hheader, split_on_first by assumption. reflexivity.
  - assert (Hheader : truthy (scheme ++ 32%N :: 32%N :: rest) = true)
      by (destruct scheme; reflexivity).
    rewrite Hheader, split_on_first by assumption.
    change (32%N :: rest) with ([] ++ 32%N :: rest).
    rewrite split_on_first by (intros []). reflexivity.
Qed.

(** X22. Behind the middleware, logout-all with a header whose second
    field verifies for a user deletes every Session and RefreshToken row
    of that user and no other row; when the token does not verify the
    answer is 403 and nothing is deleted. *)
Theorem protected_logoutAll
    (env : Env) (w : World) (scheme tok : jsstring) :
  ~ In 32%N scheme -> ~ In 32%N tok -> truthy tok = true ->
  let (response, w') :=
    protected jwt_verify (now env) (Some (scheme ++ 32%N :: tok)) (logoutAll env) w in
  match jwt_verify tok (now env) with
  | Throw => response = json 403 (Error "Invalid or expired token") /\ w' = w
  | Val user =>
      truthy (decoded_userId user) = true ->
      response = json 200 (Message "Logged out from all devices")
      /\ rows_of (decoded_userId user) (sessions (db w')) = []
      /\ rows_of (decoded_userId user) (refreshTokens (db w')) = []
      /\ (forall r, userId r <> decoded_userId user ->
                    (In r (sessions (db w')) <-> In r (sessions (db w)))
                    /\ (In r (refreshTokens (db w')) <-> In r (refreshTokens (db w))))
      /\ users (db w') = users (db w)
  end.
Proof.
  intros Hscheme Htok Htruthy. unfold protected.
  assert (Hgate : authenticateToken jwt_verify (now env) (Some (scheme ++ 32%N :: tok))
                  = match jwt_verify tok (now env) with
                    | Val decoded => Next decoded
                    | Throw => Rejected (json 403 (Error "Invalid or expired token"))
                    end).
  { pose proof (@authenticateToken_second_field (now env) scheme tok []
                  Hscheme Htok Htruthy (or_introl eq_refl)) as H.
    rewrite app_nil_r in H. exact H. }
  rewrite Hgate.
  destruct (jwt_verify tok (now env)) as [user|]; [|split; reflexivity].
  unfold logoutAll, try_catch, bind, promise_all, session_deleteMany,
    refreshToken_deleteMany, publishEvent, ret.
  cbn [truthy_field field_value].
  destruct (truthy (decoded_userId user)); [|intros H; discriminate H].
  intros _. cbn [negb db sessions refreshTokens users set_sessions set_refreshTokens].
  rewrite !rows_of_keep. repeat split; try reflexivity;
    apply keep_other_user; assumption.
Qed.

End BearerFacts.

(** X23. The role check passes exactly the authenticated users whose
    role is, letter for letter, one of the listed roles; with an empty
    list it passes nobody. *)
Theorem authorizeRole_passes_listed_roles
    (roles : list jsstring) (user : option Decoded) :
  (authorizeRole roles user = Pass <->
   exists u, user = Some u /\ In (decoded_role u) roles)
  /\ authorizeRole [] user <> Pass.
Proof.
  split; [split|].
  - destruct user as [u|]; simpl; [|discriminate].
    destruct (existsb _ roles) eqn:E; simpl; [|discriminate].
    intros _. apply existsb_exists in E. destruct E as (r & Hr & Heq).
    apply str_eqb_eq in Heq. subst. eauto.
  - intros (u & -> & Hin). simpl.
    assert (E : existsb (str_eqb (decoded_role u)) roles = true).
    { apply existsb_exists. exists (decoded_role u). split; [assumption|].
      apply str_eqb_refl. }
    rewrite E. reflexivity.
  - destruct user; simpl; discriminate.
Qed.

(** ** Reports and the sweep *)

Lemma filter_length_split {A : Type} (p : A -> bool) (l : list A) :
  List.length (filter p l) + List.length (filter (fun x => negb (p x)) l)
  = List.length l.
Proof.
  induction l as [|a l IH]; simpl; [reflexivity|].
  destruct (p a); simpl; lia.
Qed.

Lemma filter_everything {A : Type} (l : list A) : filter (fun _ => true) l = l.
Proof. induction l as [|a l IH]; simpl; [reflexivity | rewrite IH; reflexivity]. Qed.

(** X24. The statistics job reads and writes nothing: it publishes one
    event whose totalUsers is the number of users, whose inactiveUsers
    is the number of users that are not active (never negative), and
    whose two active counts are the rows expiring strictly after now. *)
Theorem generateAuthStats_counts (env : Env) (w : World) :
  exists stats,
    generateAuthStats env w = (Val [StatisticsGenerated (now env) stats], w)
    /\ totalUsers stats = List.length (users (db w))
    /\ inactiveUsers stats
       = Z.of_nat (List.length (filter (fun u => negb (isActive u)) (users (db w))))
    /\ (Z.of_nat (activeUsers stats) + inactiveUsers stats
        = Z.of_nat (totalUsers stats))%Z
    /\ activeSessions stats
       = List.length (filter (fun r => (now env <? expiresAt r)%Z) (sessions (db w)))
    /\ activeTokens stats
       = List.length (filter (fun r => (now env <? expiresAt r)%Z)
                             (refreshTokens (db w))).
Proof.
  eexists. split; [reflexivity|]. cbn [totalUsers inactiveUsers activeUsers
                                       activeSessions activeTokens].
  pose proof (filter_length_split (fun u => isActive u) (users (db w))) as Hsplit.
  rewrite filter_everything. repeat split; try reflexivity; lia.
Qed.

Lemma keep_expired_live (now_ : Z) (l : list TokenRow) :
  List.length (keep (expired now_) l)
  = List.length (filter (live now_) l)
    + List.length (filter (fun r => (expiresAt r =? now_)%Z) l).
Proof.
  unfold keep, expired, live. induction l as [|a l IH]; simpl; [reflexivity|].
  destruct (expiresAt a <? now_)%Z eqn:E1, (now_ <? expiresAt a)%Z eqn:E2,
           (expiresAt a =? now_)%Z eqn:E3; simpl; try lia;
    rewrite ?Z.ltb_lt, ?Z.ltb_ge, ?Z.eqb_eq, ?Z.eqb_neq in *; lia.
Qed.

Lemma filter_keep_comm (p q : TokenRow -> bool) (l : list TokenRow) :
  filter p (keep q l) = keep q (filter p l).
Proof.
  unfold keep. induction l as [|a l IH]; simpl; [reflexivity|].
  destruct (q a) eqn:Eq, (p a) eqn:Ep; simpl; rewrite ?Eq, ?Ep; simpl;
    rewrite ?IH; reflexivity.
Qed.

Lemma keep_nothing (q : TokenRow -> bool) (l : list TokenRow) :
  (forall r, In r l -> q r = false) -> keep q l = l.
Proof.
  unfold keep. induction l as [|a l IH]; simpl; intros H; [reflexivity|].
  rewrite (H a) by auto. simpl. f_equal. apply IH. auto.
Qed.

(** X25. At one instant the sweep and the statistics disagree on a row
    that expires exactly then: the sweep keeps it, the statistics do not
    count it as active. After a sweep at that instant the rows left in a
    table are the active ones plus those expiring exactly now. *)
Theorem sweep_keeps_what_stats_call_inactive (env : Env) (w : World) :
  let w1 := snd (cleanupExpiredSessions env w) in
  exists stats events,
    generateAuthStats env w1 = (Val [StatisticsGenerated (now env) stats], w1)
    /\ outbox w1 = outbox w ++ events
    /\ List.length (sessions (db w1))
       = activeSessions stats
         + List.length (filter (fun r => (expiresAt r =? now env)%Z) (sessions (db w)))
    /\ List.length (refreshTokens (db w1))
       = activeTokens stats
         + List.length (filter (fun r => (expiresAt r =? now env)%Z)
                               (refreshTokens (db w))).
Proof.
  cbv zeta. eexists. eexists. split; [reflexivity|].
  unfold cleanupExpiredSessions, bind, session_deleteMany, refreshToken_deleteMany,
    publishEvent, ret.
  cbn [snd db sessions refreshTokens outbox set_sessions set_refreshTokens
       activeSessions activeTokens].
  split; [reflexivity|].
  assert (Hlive : forall l, filter (live (now env)) (keep (expired (now env)) l)
                            = filter (live (now env)) l).
  { intros l. rewrite filter_keep_comm. apply keep_nothing.
    intros r Hr. apply filter_In in Hr. destruct Hr as [_ Hr].
    unfold live, expired in *. apply Z.ltb_lt in Hr. apply Z.ltb_ge. lia. }
  rewrite !Hlive. split; apply keep_expired_live.
Qed.

(** X26. A second sweep at the same or an earlier instant deletes
    nothing and reports two zero counts. *)
Theorem cleanupExpiredSessions_again_deletes_nothing (env env' : Env) (w : World) :
  (now env' <= now env)%Z ->
  let w1 := snd (cleanupExpiredSessions env w) in
  cleanupExpiredSessions env' w1
  = (Val tt, {| db := db w1;
                outbox := outbox w1 ++ [SessionsCleanedUp (now env') 0 0] |}).
Proof.
  intros Hle. cbv zeta.
  unfold cleanupExpiredSessions, bind, session_deleteMany, refreshToken_deleteMany,
    publishEvent, ret.
  cbn [snd db sessions refreshTokens outbox set_sessions set_refreshTokens].
  assert (Hnone : forall l r, In r (keep (expired (now env)) l) ->
                              expired (now env') r = false).
  { intros l r Hr. apply keep_In in Hr. destruct Hr as [_ Hr].
    unfold expired in *. apply Z.ltb_ge in Hr. apply Z.ltb_ge. lia. }
  assert (Hcount : forall l, count (expired (now env')) (keep (expired (now env)) l) = 0).
  { intros l. pose proof (count_keep (expired (now env')) (keep (expired (now env)) l)) as H.
    rewrite (keep_nothing (expired (now env')) (keep (expired (now env)) l)) in H
      by (apply Hnone). lia. }
  rewrite !Hcount.
  rewrite !(keep_nothing (expired (now env'))) by (apply Hnone).
  reflexivity.
Qed.


Section SweepAfterLogin.
Context {L : Library}.

(** X28. The two rows of one login do not expire together: a sweep up to
    twenty-four hours after the login keeps both, a sweep later than
    that but within seven days deletes the session and keeps the refresh
    token. *)
Theorem session_expires_before_refresh_token
    (env env' : Env) (req : LoginBody) (w : World) :
  status (fst (login env req w)) = 200%Z ->
  (now env' <= now env + 7 * 24 * 60 * 60 * 1000)%Z ->
  let w2 := snd (cleanupExpiredSessions env' (snd (login env req w))) in
  exists uid,
    let session := {| userId := uid; token := random_session env;
                      expiresAt := now env + 24 * 60 * 60 * 1000 |} in
    let refresh := {| userId := uid; token := random_refresh env;
                      expiresAt := now env + 7 * 24 * 60 * 60 * 1000 |} in
    In refresh (refreshTokens (db w2))
    /\ ((now env' <= now env + 24 * 60 * 60 * 1000)%Z -> In session (sessions (db w2)))
    /\ ((now env + 24 * 60 * 60 * 1000 < now env')%Z -> ~ In session (sessions (db w2))).
Proof.
  intros Hs Hweek. cbv zeta.
  destruct (login_ok_inv env req w Hs) as (user & _ & _ & Hrun).
  exists (id user). rewrite Hrun.
  unfold cleanupExpiredSessions, bind, session_deleteMany, refreshToken_deleteMany,
    publishEvent, ret.
  cbn [snd db sessions refreshTokens set_sessions set_refreshTokens].
  rewrite !keep_In. unfold expired. cbn [expiresAt].
  split; [|split].
  - split; [apply in_or_app; right; left; reflexivity | apply Z.ltb_ge; lia].
  - intros Hday. split; [apply in_or_app; right; left; reflexivity | apply Z.ltb_ge; lia].
  - intros Hlate [_ Hkept]. apply Z.ltb_ge in Hkept. lia.
Qed.

End SweepAfterLogin.

(** * The further properties on the small replica *)

Lemma replica_consistent : consistent (db replica).
Proof.
  assert (Howner : forall r, userId r = js "u1" \/ userId r = js "u2"
                             \/ userId r = js "u3" ->
                   exists u, In u (users (db replica)) /\ id u = userId r).
  { intros r [H | [H | H]]; rewrite H;
      [exists alice | exists bob | exists carol]; simpl; auto. }
  constructor; try distinct;
    intros r Hr; simpl in Hr; apply Howner;
    repeat (destruct Hr as [<- | Hr]; [simpl; auto|]); contradiction.
Qed.

Lemma nth_hex_digit (n : nat) : lower_hex (nth n (js "0123456789abcdef") 48%N).
Proof.
  assert (Hall : Forall lower_hex (js "0123456789abcdef"))
    by (repeat constructor; unfold lower_hex; cbn; lia).
  destruct (Nat.lt_ge_cases n (List.length (js "0123456789abcdef"))) as [Hlt | Hge].
  - rewrite Forall_forall in Hall. apply Hall. apply nth_In. assumption.
  - rewrite nth_overflow by assumption. unfold lower_hex. lia.
Qed.

Lemma reference_sha256_contract : sha256_contract (L := reference).
Proof.
  intros s. cbn [sha256_hex reference]. unfold ref_sha256. split.
  - rewrite length_firstn, length_app, length_map, repeat_length. lia.
  - apply Forall_firstn, Forall_app. split.
    + apply Forall_forall. intros x Hx. apply in_map_iff in Hx.
      destruct Hx as (y & <- & _). apply nth_hex_digit.
    + apply Forall_forall. intros x Hx. apply repeat_spec in Hx. subst.
      unfold lower_hex. lia.
Qed.

Lemma alice_signs_in : 
  status (fst (login (L := reference) (env_at 5000 "-" "-" "r1" "s1")
                     {| login_emailOrUsername := Some (js "alice");
                        login_password := Some (js "secret123") |} replica)) = 200%Z.
Proof. vm_compute. reflexivity. Qed.

Lemma replica_accounts_differ (u : User) :
  In u (users (db replica)) ->
  id u <> js "u9" /\ email u <> js "dave@x.com" /\ username u <> js "dave@x.com".
Proof.
  intros [<- | [<- | [<- | []]]]; vm_compute; repeat split; discriminate.
Qed.

Lemma step_keeps_consistency_witness :
  consistent (db (step (L := reference)
                       (OpLogin (env_at 5000 "-" "-" "r1" "s1")
                                {| login_emailOrUsername := Some (js "alice");
                                   login_password := Some (js "secret123") |})
                       replica)).
Proof. apply step_keeps_consistency. exact replica_consistent. Defined.

Lemma step_keeps_accounts_witness :
  exists v, In v (users (db (step (L := reference) (OpUserDeactivated (js "u1")) replica)))
            /\ same_account alice v
            /\ (changes_credential (OpUserDeactivated (js "u1")) = false ->
                password v = password alice).
Proof.
  apply (@step_keeps_accounts reference (OpUserDeactivated (js "u1")) replica alice).
  simpl. auto.
Defined.

Lemma client_errors_change_nothing_witness :
  step (L := reference)
       (OpLogin (env_at 5000 "-" "-" "r1" "s1")
                {| login_emailOrUsername := Some (js "alice");
                   login_password := Some (js "guess") |}) replica
  = replica.
Proof.
  apply (@client_errors_change_nothing reference _ replica
           (json 401 (Error "Invalid credentials"))).
  - reflexivity.
  - simpl. lia.
Defined.

Lemma events_only_on_success_witness :
  let op := OpLogoutAll (env_at 5000 "-" "-" "-" "-") (Some (js "u1")) in
  exists e, outbox (step (L := reference) op replica) = outbox replica ++ [e].
Proof.
  intros op.
  destruct (@events_only_on_success reference op replica
              (json 200 (Message "Logged out from all devices")))
    as [Hok _]; [reflexivity|].
  apply Hok. simpl. lia.
Defined.

Lemma login_success_means_verified_witness :
  exists user,
    In user (users (db replica)) /\ isActive user = true
    /\ verifyPassword (L := reference) (js "secret123") (password user) = Val true.
Proof.
  destruct (login_success_means_verified (L := reference) _ _ replica alice_signs_in)
    as (user & Hin & Ha & _ & Hv & _).
  exists user. repeat split; assumption.
Defined.

Lemma refresh_mints_from_current_row_witness :
  refreshToken (L := reference) (env_at 5000 "-" "-" "-" "-")
               (Some (token alice_refresh)) replica
  = (json 200 (Refreshed (ref_jwt (payload_of alice) 5000)),
     {| db := db replica;
        outbox := [TokenRefreshed 5000 (js "u1") (js "alice@x.com")] |}).
Proof.
  apply (@refresh_mints_from_current_row reference (env_at 5000 "-" "-" "-" "-")
           replica alice_refresh alice).
  - distinct.
  - distinct.
  - simpl. auto.
  - reflexivity.
  - simpl. lia.
  - simpl. auto.
  - reflexivity.
  - reflexivity.
Defined.

Lemma login_then_refresh_witness :
  let req := {| login_emailOrUsername := Some (js "alice");
                login_password := Some (js "secret123") |} in
  let w1 := snd (login (L := reference) (env_at 5000 "-" "-" "r1" "s1") req replica) in
  exists user,
    In user (users (db replica)) /\ isActive user = true
    /\ (email user = js "alice" \/ username user = js "alice")
    /\ verifyPassword (L := reference) (js "secret123") (password user) = Val true
    /\ fst (login (L := reference) (env_at 5000 "-" "-" "r1" "s1") req replica)
       = json 200 (LoggedIn (view user) (ref_jwt (payload_of user) 5000)
                            (js "r1") (js "s1"))
    /\ refreshToken (L := reference) (env_at 90000 "-" "-" "-" "-") (Some (js "r1")) w1
       = (json 200 (Refreshed (ref_jwt (payload_of user) 90000)),
          {| db := db w1;
             outbox := outbox w1 ++ [TokenRefreshed 90000 (id user) (email user)] |}).
Proof.
  intros req w1.
  apply (@login_then_refresh reference (env_at 5000 "-" "-" "r1" "s1")
           (env_at 90000 "-" "-" "-" "-") req replica).
  - exact alice_signs_in.
  - distinct.
  - reflexivity.
  - simpl. lia.
Defined.

Lemma logout_revokes_refresh_token_witness :
  let w1 := snd (logout (env_at 5000 "-" "-" "-" "-") (Some (js "u2"))
                        {| logout_refreshToken := Some (js "r-alice");
                           logout_sessionToken := None |} replica) in
  refreshToken (L := reference) (env_at 6000 "-" "-" "-" "-") (Some (js "r-alice")) w1
  = (json 401 (Error "Invalid or expired refresh token"), w1).
Proof.
  apply (@logout_revokes_refresh_token reference (env_at 5000 "-" "-" "-" "-")
           (env_at 6000 "-" "-" "-" "-") (Some (js "u2")) (js "r-alice") None replica).
  reflexivity.
Defined.

Lemma register_keeps_user_when_token_collides_witness :
  let req := {| reg_email := Some (js "dave@x.com"); reg_username := Some (js "dave");
                reg_password := Some (js "secret123"); reg_role := None |} in
  let (response, w1) :=
    register (L := reference) (env_at 5000 "u9" "salt" "r-alice" "-") req replica in
  response = json 500 (Error "Failed to register user")
  /\ (exists u, users (db w1) = users (db replica) ++ [u]
                /\ email u = js "dave@x.com")
  /\ refreshTokens (db w1) = refreshTokens (db replica)
  /\ outbox w1 = outbox replica
  /\ register (L := reference) (env_at 6000 "u10" "salt" "r9" "-") req w1
     = (json 400 (Error "User with this email or username already exists"), w1).
Proof.
  intros req.
  apply (@register_keeps_user_when_token_collides reference
           (env_at 5000 "u9" "salt" "r-alice" "-")
           (env_at 6000 "u10" "salt" "r9" "-") req replica);
    try reflexivity.
  - intros u [<- | [<- | [<- | []]]]; vm_compute; repeat split; discriminate.
  - exists alice_refresh. split; [simpl; auto | reflexivity].
Defined.

Lemma changePassword_invalidates_sessions_witness :
  let (response, w') :=
    changePassword (L := reference) (env_at 7000 "-" "salt1" "-" "-") (Some (id alice))
                   {| currentPassword := Some (js "secret123");
                      newPassword := Some (js "correct horse") |} replica in
  status response = 200%Z
  /\ In (set_password (ref_hash (js "correct horse") 12 (js "salt1")) alice)
        (users (db w'))
  /\ (forall v, In v (users (db replica)) -> id v <> id alice -> In v (users (db w')))
  /\ List.length (users (db w')) = List.length (users (db replica))
  /\ rows_of (id alice) (sessions (db w')) = []
  /\ rows_of (id alice) (refreshTokens (db w')) = []
  /\ (forall r, userId r <> id alice ->
                (In r (sessions (db w')) <-> In r (sessions (db replica)))
                /\ (In r (refreshTokens (db w')) <-> In r (refreshTokens (db replica)))).
Proof.
  apply (@changePassword_invalidates_sessions reference
           (env_at 7000 "-" "salt1" "-" "-") replica alice
           (js "secret123") (js "correct horse")).
  - reflexivity.
  - reflexivity.
  - vm_compute. lia.
  - distinct.
  - simpl. auto.
  - reflexivity.
Defined.

Lemma changePassword_then_login_witness :
  let body := {| currentPassword := Some (js "secret123");
                 newPassword := Some (js "correct horse") |} in
  let signin := {| login_emailOrUsername := Some (email alice);
                   login_password := Some (js "correct horse") |} in
  let change := changePassword (L := reference) (env_at 7000 "-" "salt1" "-" "-")
                               (Some (id alice)) body in
  let w := onUserDeactivated (js "u1") replica in
  (status (fst (change replica)) = 200%Z
   /\ status (fst (login (L := reference) (env_at 7200 "-" "-" "r2" "s2") signin
                         (snd (change replica)))) = 200%Z)
  /\ (status (fst (change w)) = 200%Z
      /\ login (L := reference) (env_at 7200 "-" "-" "r2" "s2") signin (snd (change w))
         = (json 401 (Error "Invalid credentials"), snd (change w))).
Proof.
  intros body signin change w. split.
  - destruct (@changePassword_then_login reference (env_at 7000 "-" "salt1" "-" "-")
                (env_at 7100 "-" "-" "-" "-") (env_at 7200 "-" "-" "r2" "s2")
                replica alice (js "secret123") (js "correct horse"))
      as (Hchanged & _ & Hlogin & _); try reflexivity.
    + exact reference_contract.
    + vm_compute. lia.
    + distinct.
    + simpl. auto.
    + intros v [<- | [<- | [<- | []]]] Ha Hm; try reflexivity; try discriminate Ha;
        vm_compute in Hm; destruct Hm; discriminate.
    + distinct.
    + intros r [<- | [<- | [<- | []]]]; vm_compute; discriminate.
    + intros r [<- | [<- | []]]; vm_compute; discriminate.
    + split; [exact Hchanged | apply Hlogin; reflexivity].
  - destruct (@changePassword_then_login reference (env_at 7000 "-" "salt1" "-" "-")
                (env_at 7100 "-" "-" "-" "-") (env_at 7200 "-" "-" "r2" "s2")
                w (set_isActive false alice) (js "secret123") (js "correct horse"))
      as (Hchanged & _ & _ & Hlogin); try reflexivity.
    + exact reference_contract.
    + vm_compute. lia.
    + distinct.
    + vm_compute. auto.
    + intros v Hv Ha Hm. vm_compute in Hv.
      destruct Hv as [<- | [<- | [<- | []]]]; try discriminate Ha.
      vm_compute in Hm. destruct Hm; discriminate.
    + distinct.
    + intros r Hr. vm_compute in Hr. destruct Hr as [<- | [<- | []]]; discriminate.
    + intros r Hr. vm_compute in Hr. destruct Hr as [<- | []]; discriminate.
    + split; [exact Hchanged | apply Hlogin; reflexivity].
Defined.

Lemma deactivated_user_is_locked_out_witness :
  let w1 := onUserDeactivated (js "u1") replica in
  login (L := reference) (env_at 5000 "-" "-" "r1" "s1")
        {| login_emailOrUsername := Some (js "alice");
           login_password := Some (js "secret123") |} w1
  = (json 401 (Error "Invalid credentials"), w1)
  /\ refreshToken (L := reference) (env_at 6000 "-" "-" "-" "-")
                  (Some (token alice_refresh)) w1
     = (json 401 (Error "Invalid or expired refresh token"), w1).
Proof.
  apply (@deactivated_user_is_locked_out reference (env_at 5000 "-" "-" "r1" "s1")
           (env_at 6000 "-" "-" "-" "-") (js "u1") replica (js "alice")
           (js "secret123") alice_refresh);
    try reflexivity.
  - intros u [<- | [<- | [<- | []]]] Hm; try reflexivity;
      vm_compute in Hm; destruct Hm; discriminate.
  - distinct.
  - simpl. auto.
Defined.

Lemma deactivation_and_reactivation_do_not_commute_witness :
  onUserDeactivated (js "u1") (onUserReactivated (js "u1") replica)
  <> onUserReactivated (js "u1") (onUserDeactivated (js "u1") replica).
Proof.
  apply (@deactivation_and_reactivation_do_not_commute (js "u1") replica).
  exists alice. split; [simpl; auto | reflexivity].
Defined.

Lemma replicated_user_logs_in_with_digest_witness :
  let m := {| msg_email := js "dave@x.com";
              msg_password := Some (ref_sha256 (js "open sesame"));
              msg_hashedPassword := None; msg_role := js "USER";
              msg_isActive := true;
              msg_createdAt := Some (DateString (js "1970-01-01T00:00:01.300Z")) |} in
  status (fst (login (L := reference) (env_at 6000 "-" "-" "r2" "s2")
                     {| login_emailOrUsername := Some (js "dave@x.com");
                        login_password := Some (js "open sesame") |}
                     (onUserCreated (L := reference) (env_at 5000 "u9" "-" "-" "-")
                                    m replica))) = 200%Z.
Proof.
  intros m.
  apply (@replicated_user_logs_in_with_digest reference
           (env_at 5000 "u9" "-" "-" "-") (env_at 6000 "-" "-" "r2" "s2")
           m replica (js "open sesame"));
    try reflexivity.
  - exact reference_sha256_contract.
  - right. split; reflexivity.
  - vm_compute. discriminate.
  - exact replica_accounts_differ.
  - intros r [<- | [<- | [<- | []]]]; vm_compute; discriminate.
  - intros r [<- | [<- | []]]; vm_compute; discriminate.
Defined.

Lemma one_digit_cost_verifies_nothing_witness :
  let stored := js "$2b$5$" ++ repeat 46%N 53 in
  encoding_of stored Adaptive
  /\ verifyPassword (L := reference) (js "secret123") stored = Val false.
Proof.
  apply (@one_digit_cost_verifies_nothing reference (js "secret123")
           98%N 53%N (repeat 46%N 53)).
  - exact reference_contract.
  - simpl. auto.
  - unfold is_digit. lia.
  - reflexivity.
  - apply Forall_forall. intros x Hx. apply repeat_spec in Hx. subst.
    unfold not_line_terminator. lia.
Defined.

Lemma uppercase_digest_verifies_nothing_witness :
  let stored := repeat 65%N 64 in
  encoding_of stored LegacyDigest
  /\ verifyPassword (L := reference) (js "secret123") stored = Val false.
Proof.
  apply (@uppercase_digest_verifies_nothing reference (js "secret123")
           (repeat 65%N 64) 65%N).
  - exact reference_sha256_contract.
  - shaped.
  - left. reflexivity.
  - lia.
Defined.

Lemma authenticateToken_takes_second_field_witness :
  authenticateToken ref_verify 5000 (Some (js "Bearer jwt.u1"))
  = Next {| decoded_userId := js "u1"; decoded_email := []; decoded_role := [];
            iat := None; exp := None |}
  /\ authenticateToken ref_verify 5000 (Some (js "Basic jwt.u1 trailing"))
     = authenticateToken ref_verify 5000 (Some (js "Bearer jwt.u1")).
Proof.
  split.
  - apply (@authenticateToken_takes_second_field ref_verify 5000
             (js "Bearer") (js "jwt.u1") []).
    + vm_compute. intuition discriminate.
    + vm_compute. intuition discriminate.
    + reflexivity.
    + left. reflexivity.
  - etransitivity.
    + apply (@authenticateToken_takes_second_field ref_verify 5000
               (js "Basic") (js "jwt.u1") (js " trailing")).
      * vm_compute. intuition discriminate.
      * vm_compute. intuition discriminate.
      * reflexivity.
      * right. eexists. reflexivity.
    + reflexivity.
Defined.

Lemma protected_logoutAll_witness :
  let (response, w') :=
    protected ref_verify 5000 (Some (js "Bearer jwt.u1"))
              (logoutAll (env_at 5000 "-" "-" "-" "-")) replica in
  response = json 200 (Message "Logged out from all devices")
  /\ rows_of (js "u1") (sessions (db w')) = []
  /\ rows_of (js "u1") (refreshTokens (db w')) = []
  /\ users (db w') = users (db replica).
Proof.
  pose proof (@protected_logoutAll ref_verify (env_at 5000 "-" "-" "-" "-") replica
                (js "Bearer") (js "jwt.u1")) as H.
  change (js "Bearer" ++ 32%N :: js "jwt.u1") with (js "Bearer jwt.u1") in H.
  destruct (protected ref_verify (now (env_at 5000 "-" "-" "-" "-"))
              (Some (js "Bearer jwt.u1"))
              (logoutAll (env_at 5000 "-" "-" "-" "-")) replica) as [response w'].
  destruct H as (H1 & H2 & H3 & _ & H5).
  - vm_compute. intuition discriminate.
  - vm_compute. intuition discriminate.
  - reflexivity.
  - reflexivity.
  - repeat split; assumption.
Defined.

Lemma authenticateToken_requires_second_field_witness :
  authenticateToken ref_verify 5000 (Some (js "jwt.u1"))
  = Rejected (json 401 (Error "Access token required")).
Proof.
  apply authenticateToken_requires_second_field.
  right. left. exists (js "jwt.u1"). split; [reflexivity|].
  vm_compute. intuition discriminate.
Defined.

Lemma cleanupExpiredSessions_again_deletes_nothing_witness :
  let w1 := snd (cleanupExpiredSessions (env_at 5000 "-" "-" "-" "-") replica) in
  cleanupExpiredSessions (env_at 5000 "-" "-" "-" "-") w1
  = (Val tt, {| db := db w1; outbox := outbox w1 ++ [SessionsCleanedUp 5000 0 0] |}).
Proof.
  apply (@cleanupExpiredSessions_again_deletes_nothing
           (env_at 5000 "-" "-" "-" "-") (env_at 5000 "-" "-" "-" "-") replica).
  simpl. lia.
Defined.

Lemma session_expires_before_refresh_token_witness :
  let w2 := snd (cleanupExpiredSessions (env_at 100000000 "-" "-" "-" "-")
                   (snd (login (L := reference) (env_at 5000 "-" "-" "r1" "s1")
                               {| login_emailOrUsername := Some (js "alice");
                                  login_password := Some (js "secret123") |}
                               replica))) in
  exists uid,
    In {| userId := uid; token := js "r1"; expiresAt := 5000 + 7 * 24 * 60 * 60 * 1000 |}
       (refreshTokens (db w2))
    /\ ~ In {| userId := uid; token := js "s1";
               expiresAt := 5000 + 24 * 60 * 60 * 1000 |} (sessions (db w2)).
Proof.
  intros w2.
  destruct (@session_expires_before_refresh_token reference
              (env_at 5000 "-" "-" "r1" "s1") (env_at 100000000 "-" "-" "-" "-")
              _ replica alice_signs_in) as (uid & Hr & _ & Hgone).
  - simpl. lia.
  - exists uid. split; [exact Hr|]. apply Hgone. simpl. lia.
Defined.
